(** * DataJarvis/download_images.py: image download and link rewriting

    A shallow embedding of the script [download_images.py]: the extraction
    of image URLs from a page, the download of one image with its fallback
    over request configurations, the derivation of the local file name, the
    download loop of [main], and the rewriting of the page with its backup.

    Python text is modelled as a list of 8-bit characters (the UTF-8 bytes
    of the text).  None of the operations used by the script tells a
    multi-byte character from its bytes: the character classes of the
    pattern and the separators are ASCII, and [str.lower] never produces
    the letters p, n or g from a character outside ASCII.  The one place
    that counts characters is the drive of a Windows path, a letter and a
    colon at its start; what is stated about it is stated for letters of
    ASCII. *)

From Stdlib Require Import Ascii String ZArith Lia Bool Arith List.
From Stdlib Require Import DecimalString.
Import ListNotations.

Set Implicit Arguments.

(** ** Text *)

Definition str := list ascii.

(** A string literal of the source. *)
Definition lit (s : string) : str := list_ascii_of_string s.

Definition str_eqb (a b : str) : bool :=
  if list_eq_dec ascii_dec a b then true else false.

(** [s.startswith(p)] *)
Fixpoint startswith (s p : str) {struct p} : bool :=
  match p with
  | [] => true
  | c :: p' =>
      match s with
      | [] => false
      | d :: s' => Ascii.eqb d c && startswith s' p'
      end
  end.

(** [s.endswith(suf)]: the last [len(suf)] characters of [s] are [suf]. *)
Definition endswith (s suf : str) : bool :=
  (length suf <=? length s) && str_eqb (skipn (length s - length suf) s) suf.

(** [sub in s] *)
Fixpoint contains (s sub : str) : bool :=
  startswith s sub ||
  match s with
  | [] => false
  | _ :: s' => contains s' sub
  end.

(** [c in s] for one character. *)
Definition has_char (c : ascii) (s : str) : bool :=
  existsb (Ascii.eqb c) s.

Definition lower_ascii (c : ascii) : ascii :=
  let n := nat_of_ascii c in
  if (65 <=? n) && (n <=? 90) then ascii_of_nat (n + 32) else c.

(** [s.lower()] *)
Definition lower (s : str) : str := map lower_ascii s.

(** [s.find(c)] as the text before the first [c] and the text from it on;
    [None] when [c] does not occur. *)
Fixpoint split_at_char (c : ascii) (s : str) : option (str * str) :=
  match s with
  | [] => None
  | d :: s' =>
      if Ascii.eqb d c then Some ([], s)
      else match split_at_char c s' with
           | Some (a, b) => Some (d :: a, b)
           | None => None
           end
  end.

(** [s.replace(old, new)]: the occurrences of [old] are taken from the
    left and do not overlap.  [skip] counts the characters of an occurrence
    that are still to be passed over.  An empty [old] puts [new] before
    every character and at the end. *)
Fixpoint replace_from (old new : str) (skip : nat) (s : str) : str :=
  match s with
  | [] => []
  | c :: s' =>
      match skip with
      | S k => replace_from old new k s'
      | O =>
          if startswith s old
          then new ++ replace_from old new (length old - 1) s'
          else c :: replace_from old new 0 s'
      end
  end.

Fixpoint intersperse_before (new : str) (s : str) : str :=
  match s with
  | [] => new
  | c :: s' => new ++ c :: intersperse_before new s'
  end.

Definition replace (s old new : str) : str :=
  match old with
  | [] => intersperse_before new s
  | _ :: _ => replace_from old new 0 s
  end.

(** [str(n)] for an integer. *)
Definition str_of_int (n : Z) : str :=
  lit (NilEmpty.string_of_int (Z.to_int n)).

(** ** The [re] pattern of [extract_image_urls]

    The pattern is a sequence of character classes, each taken once or
    repeated greedily, one of them inside the capturing group.  Matching
    backtracks as Python's [re] does: a repetition first takes as many
    characters as it can and gives them back one at a time while the rest
    of the pattern fails. *)

Inductive charset :=
| Only (cs : list ascii)      (* [c] or [...] *)
| Except (cs : list ascii).   (* [^...] *)

Definition in_charset (cs : charset) (c : ascii) : bool :=
  match cs with
  | Only l => existsb (Ascii.eqb c) l
  | Except l => negb (existsb (Ascii.eqb c) l)
  end.

Inductive quant := Once | Plus | Star.

Record item := Item { it_set : charset; it_quant : quant; it_group : bool }.

(** The literal text [s] as pattern items. *)
Definition lits (s : string) : list item :=
  map (fun c => Item (Only [c]) Once false) (list_ascii_of_string s).

(** Greedy repetition of a class with continuation [k], which receives the
    characters taken (in reverse) and the remaining text. *)
Fixpoint greedy (A : Type) (cs : charset) (k : str -> str -> option A)
         (taken : str) (s : str) : option A :=
  match s with
  | c :: s' =>
      if in_charset cs c then
        match greedy cs k (c :: taken) s' with
        | Some r => Some r
        | None => k taken s
        end
      else k taken s
  | [] => k taken s
  end.

(** Match the items at the start of [s]; the result is the text of the
    group (when the group took part) and the text left after the match. *)
Fixpoint match_items (items : list item) (cap : option str) (s : str)
  : option (option str * str) :=
  match items with
  | [] => Some (cap, s)
  | Item cs q g :: rest =>
      let k := fun taken s' =>
                 match_items rest (if g then Some (rev taken) else cap) s' in
      match q with
      | Star => greedy cs k [] s
      | Plus =>
          match s with
          | c :: s' => if in_charset cs c then greedy cs k [c] s' else None
          | [] => None
          end
      | Once =>
          match s with
          | c :: s' => if in_charset cs c then k [c] s' else None
          | [] => None
          end
      end
  end.

(** [re.findall] for a pattern with one group: the group of every match,
    the matches found from the left, a new search starting where the last
    match ended (one character further after an empty match). *)
Fixpoint findall_from (items : list item) (skip : nat) (s : str) : list str :=
  match skip with
  | S k =>
      match s with
      | [] => []
      | _ :: s' => findall_from items k s'
      end
  | O =>
      match match_items items None s with
      | Some (cap, rest) =>
          let v := match cap with Some v => v | None => [] end in
          v :: match s with
               | [] => []
               | _ :: s' => findall_from items (length s - length rest - 1) s'
               end
      | None =>
          match s with
          | [] => []
          | _ :: s' => findall_from items 0 s'
          end
      end
  end.

Definition findall (items : list item) (s : str) : list str :=
  findall_from items 0 s.

(** The two quote characters, double (code 34) and single (code 39). *)
Definition quote_chars : list ascii := ["034"; "039"]%char.

(** The pattern [img_pattern] of the source: the text <img, one or more
    characters other than >, the text src=, a quote character, the group of
    one or more characters other than quotes, a quote character, any
    characters other than >, and >. *)
Definition img_pattern : list item :=
  lits "<img"
  ++ [Item (Except [">"%char]) Plus false]
  ++ lits "src="
  ++ [Item (Only quote_chars) Once false;
      Item (Except quote_chars) Plus true;
      Item (Only quote_chars) Once false;
      Item (Except [">"%char]) Star false;
      Item (Only [">"%char]) Once false].

(** ** Paths and URLs (library functions the script calls) *)

(** [s[s.rfind(c)+1:]]: the text after the last [c], all of [s] when [c]
    does not occur. *)
Fixpoint after_last (c : ascii) (s : str) : str :=
  match s with
  | [] => []
  | d :: s' =>
      if has_char c s' then after_last c s'
      else if Ascii.eqb d c then s' else s
  end.

(** [s[:s.rfind(c)+1]]: the text up to and with the last [c]. *)
Fixpoint upto_last (c : ascii) (s : str) : str :=
  match s with
  | [] => []
  | d :: s' =>
      if has_char c s' then d :: upto_last c s'
      else if Ascii.eqb d c then [d] else []
  end.

(** [os.path.basename] as [posixpath] has it, with [/] as the separator;
    [ntpath_basename] below is the one of Windows. *)
Definition os_path_basename (p : str) : str := after_last "/"%char p.

(** [os.path.join(a, b)] as [posixpath] has it, also the [/] of [pathlib];
    [ntpath_join] below is the one of Windows.  The run of the script is
    modelled with this one. *)
Definition os_path_join (a b : str) : str :=
  if startswith b (lit "/") then b
  else if str_eqb a [] || endswith a (lit "/") then a ++ b
  else a ++ lit "/" ++ b.

(** [PurePath.suffix] of a file name: from its last dot on, when that dot
    is neither the first nor the last character. *)
Definition name_suffix (name : str) : str :=
  let stem := upto_last "."%char name in
  let ext := after_last "."%char name in
  match stem, ext with
  | _ :: _ :: _, _ :: _ => "."%char :: ext
  | _, _ => []
  end.

(** [PurePath.with_suffix(suffix)]; [None] is its [ValueError]. *)
Definition with_suffix (p suffix : str) : option str :=
  let name := os_path_basename p in
  if has_char "/"%char suffix
     || (negb (str_eqb suffix []) && negb (startswith suffix (lit ".")))
     || str_eqb suffix (lit ".")
     || str_eqb name []
  then None
  else
    let old := name_suffix name in
    Some (upto_last "/"%char p
          ++ firstn (length name - length old) name ++ suffix).

Definition is_c0_or_space (c : ascii) : bool := nat_of_ascii c <=? 32.

Fixpoint lstrip_c0 (s : str) : str :=
  match s with
  | c :: s' => if is_c0_or_space c then lstrip_c0 s' else s
  | [] => []
  end.

(** Tab, line feed and carriage return are removed from a URL. *)
Definition is_unsafe_url_byte (c : ascii) : bool :=
  let n := nat_of_ascii c in (n =? 9) || (n =? 10) || (n =? 13).

Definition is_ascii_alpha (c : ascii) : bool :=
  let n := nat_of_ascii c in
  ((65 <=? n) && (n <=? 90)) || ((97 <=? n) && (n <=? 122)).

Definition is_scheme_char (c : ascii) : bool :=
  let n := nat_of_ascii c in
  is_ascii_alpha c || ((48 <=? n) && (n <=? 57))
  || (n =? 43) || (n =? 45) || (n =? 46).

(** The text up to the first character of [delims], and the text from it. *)
Fixpoint split_at_any (delims : list ascii) (s : str) : str * str :=
  match s with
  | [] => ([], [])
  | c :: s' =>
      if existsb (Ascii.eqb c) delims then ([], s)
      else let (a, b) := split_at_any delims s' in (c :: a, b)
  end.

Definition uses_params : list string :=
  [""; "ftp"; "hdl"; "prospero"; "http"; "imap"; "https"; "shttp"; "rtsp";
   "rtspu"; "sip"; "sips"; "mms"; "sftp"; "tel"]%string.

(** [_splitparams(url)[0]] *)
Definition splitparams_path (url : str) : str :=
  if has_char "/"%char url then
    let dir := upto_last "/"%char url in
    let name := after_last "/"%char url in
    (* [find] starts at the last slash itself, which is no semicolon *)
    dir ++ fst (split_at_any [";"%char] name)
  else fst (split_at_any [";"%char] url).

(** [urlparse(url).path].  [netloc_ok] stands for the library's checks of
    a bracketed or non-ASCII host; [None] is a [ValueError]. *)
Definition urlparse_path (netloc_ok : str -> bool) (url0 : str) : option str :=
  let url := filter (fun c => negb (is_unsafe_url_byte c)) (lstrip_c0 url0) in
  let (scheme, url) :=
    match split_at_char ":"%char url with
    | Some (c :: pre, _ :: post) =>
        if is_ascii_alpha c && forallb is_scheme_char (c :: pre)
        then (lower (c :: pre), post) else ([], url)
    | _ => ([], url)
    end in
  let (netloc, url) :=
    if startswith url (lit "//")
    then split_at_any ["/"; "?"; "#"]%char (skipn 2 url)
    else ([], url) in
  let lb := has_char "["%char netloc in
  let rb := has_char "]"%char netloc in
  let plain := forallb (fun c => nat_of_ascii c <? 128) netloc in
  if (lb && negb rb) || (rb && negb lb) then None
  else if ((lb && rb) || negb plain) && negb (netloc_ok netloc) then None
  else
    let url := fst (split_at_any ["#"%char] url) in
    let url := fst (split_at_any ["?"%char] url) in
    Some (if existsb (String.eqb (string_of_list_ascii scheme)) uses_params
             && has_char ";"%char url
          then splitparams_path url else url).

(** ** [ntpath], the [os.path] of Windows *)
















(** ** The world of a run *)

Inductive exn :=
| TypeError            (* a keyword argument given twice *)
| UnboundLocalError
| ValueError
| RequestException     (* connection, TLS and timeout failures *)
| HTTPError (status : Z)
| FileNotFoundError
| OSError.

Inductive result (A : Type) :=
| Ok (a : A)
| Raise (e : exn).
Arguments Ok {A} a.
Arguments Raise {A} e.

(** The retry policy given to the transport. *)
Record retry := Retry
  { total : nat; backoff_factor : Z; status_forcelist : list Z }.

Record session := Session { max_retries : retry }.

Record response := Response { status_code : Z; content : str }.

Inductive write_result :=
| WriteOk
| WriteOpenError                  (* nothing is written *)
| WriteError (written : str).     (* the file is left with [written] *)

(** What lies outside the script: the hash of the interpreter, the
    library's host checks, the network and the behaviour of the file
    system on writing and renaming.  [http_get] is what the [n]-th call of
    [session.get] of the run returns or raises; what the session does
    inside the call (the retries of its transport under the policy of
    [create_session], with their pauses, or no request at all for a URL it
    refuses) is part of that answer and leaves no event of its own. *)
Record Env := mkEnv
  { py_hash : str -> Z;
    netloc_ok : str -> bool;
    http_get : session -> nat -> str -> bool -> option Z -> result response;
    fs_write : str -> str -> write_result;
    fs_rename : str -> str -> bool -> bool }.

Inductive event :=
| EvGet (url : str) (verify : bool) (timeout : option Z)
| EvSleep (millis : Z)
| EvMkdir (path : str)
| EvWrite (path : str)
| EvRename (src dst : str).

Record State := mkState
  { fs : str -> option str;      (* the files and their content *)
    requests : nat;              (* calls of session.get so far *)
    trace : list event }.        (* what the run did, oldest first *)

Definition fs_set (f : str -> option str) (p : str) (v : option str)
  : str -> option str :=
  fun q => if str_eqb q p then v else f q.

Definition M (A : Type) : Type := State -> result A * State.

Definition ret {A} (a : A) : M A := fun st => (Ok a, st).

Definition raise {A} (e : exn) : M A := fun st => (Raise e, st).

Definition bind {A B} (m : M A) (k : A -> M B) : M B :=
  fun st =>
    match m st with
    | (Ok a, st1) => k a st1
    | (Raise e, st1) => (Raise e, st1)
    end.

Notation "x <- m ;; k" := (bind m (fun x => k))
  (at level 61, m at next level, right associativity).

Definition emit (e : event) : M unit :=
  fun st => (Ok tt, mkState (fs st) (requests st) (trace st ++ [e])).

(** [time.sleep], the pause in milliseconds. *)
Definition sleep (millis : Z) : M unit := emit (EvSleep millis).

(** [open(path).read()] *)
Definition read_file (path : str) : M str :=
  fun st =>
    match fs st path with
    | Some c => (Ok c, st)
    | None => (Raise FileNotFoundError, st)
    end.

(** [open(path, 'w').write(data)] *)
Definition write_file (env : Env) (path data : str) : M unit :=
  fun st =>
    match fs_write env path data with
    | WriteOk =>
        (Ok tt, mkState (fs_set (fs st) path (Some data)) (requests st)
                        (trace st ++ [EvWrite path]))
    | WriteOpenError => (Raise OSError, st)
    | WriteError written =>
        (Raise OSError,
         mkState (fs_set (fs st) path (Some written)) (requests st)
                 (trace st ++ [EvWrite path]))
    end.

(** [os.rename(src, dst)] *)
Definition os_rename (env : Env) (src dst : str) : M unit :=
  fun st =>
    match fs st src with
    | None => (Raise FileNotFoundError, st)
    | Some c =>
        if fs_rename env src dst (match fs st dst with
                                  | Some _ => true
                                  | None => false
                                  end) then
          (Ok tt,
           mkState (if str_eqb src dst then fs st
                    else fs_set (fs_set (fs st) dst (Some c)) src None)
                   (requests st) (trace st ++ [EvRename src dst]))
        else (Raise OSError, st)
    end.

(** ** The script *)

(** [create_session] *)
Definition create_session : session :=
  Session (Retry 3 1 [429; 500; 502; 503; 504]%Z).

(** Keyword arguments of a call. *)
Inductive pyval := PyBool (b : bool) | PyInt (n : Z).

Definition kwargs := list (string * pyval).

Definition kw_lookup (name : string) (kw : kwargs) : option pyval :=
  match find (fun p => String.eqb (fst p) name) kw with
  | Some (_, v) => Some v
  | None => None
  end.

(** [f(name=v, **extra)]: a name given both ways is a [TypeError]. *)
Definition call_kwargs (explicit extra : kwargs) : result kwargs :=
  if existsb (fun p => match kw_lookup (fst p) extra with
                       | Some _ => true
                       | None => false
                       end) explicit
  then Raise TypeError
  else Ok (explicit ++ extra).

(** [ssl_options] *)
Definition ssl_options : list kwargs :=
  [ [("verify", PyBool true)];
    [("verify", PyBool false)];
    [("verify", PyBool true); ("timeout", PyInt 60)] ]%string.

(** One call [session.get(url, **kw)]: [verify] defaults to the session's
    setting (true), [timeout] to none.  The call is counted and recorded
    once, whatever the transport does to answer it. *)
Definition session_get (env : Env) (s : session) (url : str) (kw : kwargs)
  : M response :=
  fun st =>
    let verify := match kw_lookup "verify" kw with
                  | Some (PyBool b) => b
                  | _ => true
                  end in
    let timeout := match kw_lookup "timeout" kw with
                   | Some (PyInt n) => Some n
                   | _ => None
                   end in
    (http_get env s (requests st) url verify timeout,
     mkState (fs st) (S (requests st))
             (trace st ++ [EvGet url verify timeout])).

(** [response.raise_for_status()] *)
Definition raise_for_status (r : response) : M unit :=
  if (400 <=? status_code r)%Z && (status_code r <? 600)%Z
  then raise (HTTPError (status_code r))
  else ret tt.

(** The body of the [try] of one configuration:
    [session.get(url, timeout=30, **ssl_config)] and the status check. *)
Definition attempt (env : Env) (s : session) (url : str) (ssl_config : kwargs)
  : M response :=
  match call_kwargs [("timeout"%string, PyInt 30)] ssl_config with
  | Raise e => raise e
  | Ok kw =>
      response <- session_get env s url kw ;;
      _ <- raise_for_status response ;;
      ret response
  end.

(** The loop over [enumerate(ssl_options)]: [i] is the index of the first
    of [opts], [n] is [len(ssl_options)].  A loop that ends without a
    [break] leaves [response] unbound. *)
Fixpoint fetch_loop (env : Env) (s : session) (url : str) (n i : nat)
         (opts : list kwargs) : M response :=
  match opts with
  | [] => raise UnboundLocalError
  | ssl_config :: rest =>
      fun st =>
        match attempt env s url ssl_config st with
        | (Ok response, st1) => (Ok response, st1)
        | (Raise e, st1) =>
            if i =? n - 1 then (Raise e, st1)
            else (_ <- sleep 1000 ;; fetch_loop env s url n (S i) rest) st1
        end
  end.

Definition fetch (env : Env) (s : session) (url : str) : M response :=
  fetch_loop env s url (length ssl_options) 0 ssl_options.

(** The file name for a URL (the lines between the loop and the write). *)
Definition derive_filename (env : Env) (url : str) : result str :=
  match urlparse_path (netloc_ok env) url with
  | None => Raise ValueError
  | Some path =>
      let filename := os_path_basename path in
      let filename :=
        if str_eqb filename [] || negb (has_char "."%char filename)
        then lit "image_" ++ str_of_int (py_hash env url) ++ lit ".png"
        else filename in
      let filename :=
        if negb (endswith filename (lit ".png"))
        then filename ++ lit ".png" else filename in
      Ok filename
  end.


(** [download_image(url, save_dir, session)]: the file name, or [None]
    when anything in the [try] raised. *)
Definition download_image (env : Env) (url save_dir : str) (s : session)
  : State -> option str * State :=
  fun st =>
    let body :=
      response <- fetch env s url ;;
      filename <- (fun st => (derive_filename env url, st)) ;;
      let filepath := os_path_join save_dir filename in
      _ <- write_file env filepath (content response) ;;
      ret filename in
    match body st with
    | (Ok filename, st1) => (Some filename, st1)
    | (Raise _, st1) => (None, st1)
    end.

(** The test of [extract_image_urls]:
    [url.endswith('.png') or 'png' in url.lower()] *)
Definition is_png_url (url : str) : bool :=
  endswith url (lit ".png") || contains (lower url) (lit "png").

(** The filtering loop of [extract_image_urls] over the captured values. *)
Definition png_urls_of (img_urls : list str) : list str :=
  fold_left (fun png_urls url =>
               if is_png_url url then png_urls ++ [url] else png_urls)
            img_urls [].

(** [extract_image_urls] on the text of the page. *)
Definition extract_from_text (text : str) : list str :=
  png_urls_of (findall img_pattern text).

(** [extract_image_urls(html_file)] *)
Definition extract_image_urls (html_file : str) : M (list str) :=
  text <- read_file html_file ;;
  ret (extract_from_text text).

(** A [dict] from URL to file name or [None], in insertion order. *)
Definition dict := list (str * option str).

Fixpoint dict_set (k : str) (v : option str) (d : dict) : dict :=
  match d with
  | [] => [(k, v)]
  | (k', v') :: d' =>
      if str_eqb k' k then (k, v) :: d' else (k', v') :: dict_set k v d'
  end.

Fixpoint dict_get (k : str) (d : dict) : option (option str) :=
  match d with
  | [] => None
  | (k', v') :: d' => if str_eqb k' k then Some v' else dict_get k d'
  end.

(** The truth value of a file name or [None]. *)
Definition truthy (v : option str) : bool :=
  match v with
  | Some (_ :: _) => true
  | _ => false
  end.

(** The local path that stands for a downloaded file. *)
Definition local_path (local_filename : str) : str :=
  lit "./downloaded_images/" ++ local_filename.

(** The body of the substitution loop of [replace_image_urls]. *)
Definition rewrite_entry (text : str) (entry : str * option str) : str :=
  match entry with
  | (remote_url, Some local_filename) =>
      if truthy (Some local_filename)
      then replace text remote_url (local_path local_filename)
      else text
  | (_, None) => text
  end.

(** The substitution loop of [replace_image_urls] over
    [url_mapping.items()]. *)
Definition rewrite_text (text : str) (url_mapping : dict) : str :=
  fold_left rewrite_entry url_mapping text.

(** [replace_image_urls(html_file, url_mapping)] *)
Definition replace_image_urls (env : Env) (html_file : str) (url_mapping : dict)
  : M unit :=
  text <- read_file html_file ;;
  let text := rewrite_text text url_mapping in
  match with_suffix html_file (lit ".html.backup") with
  | None => raise ValueError
  | Some backup_file =>
      _ <- os_rename env html_file backup_file ;;
      write_file env html_file text
  end.

(** The download loop of [main]. *)
Fixpoint download_loop (env : Env) (download_dir : str) (s : session)
         (image_urls : list str) (url_mapping : dict)
  : State -> dict * State :=
  fun st =>
    match image_urls with
    | [] => (url_mapping, st)
    | url :: rest =>
        let (filename, st1) := download_image env url download_dir s st in
        let url_mapping := dict_set url filename url_mapping in
        let st2 := snd (sleep 500 st1) in
        download_loop env download_dir s rest url_mapping st2
    end.

(** The keys of a mapping, in insertion order. *)
Definition keys (d : dict) : list str := map fst d.

(** A value of the mapping: [None] or a file name ending in .png. *)
Definition value_ok (v : option str) : Prop :=
  match v with
  | None => True
  | Some f => endswith f (lit ".png") = true
  end.

Definition success_count (url_mapping : dict) : nat :=
  length (filter (fun e => truthy (snd e)) url_mapping).

Definition current_dir : str :=
  lit "D:/Code/Demo/github上demo仓库/Demo/DataJarvis".

Definition download_dir : str :=
  os_path_join current_dir (lit "downloaded_images").

Definition html_file : str := os_path_join current_dir (lit "index.html").


(** [main], for a run in which the download directory can be created and
    the page, when it exists, can be read. *)
Definition main (env : Env) : M unit :=
  _ <- emit (EvMkdir download_dir) ;;
  fun st =>
    match fs st html_file with
    | None => (Ok tt, st)
    | Some _ =>
        let s := create_session in
        (image_urls <- extract_image_urls html_file ;;
         match image_urls with
         | [] => ret tt
         | _ :: _ =>
             fun st =>
               let (url_mapping, st1) :=
                 download_loop env download_dir s image_urls [] st in
               if 0 <? success_count url_mapping
               then replace_image_urls env html_file url_mapping st1
               else (Ok tt, st1)
         end) st
    end.

(** The backup path of [replace_image_urls] for the page of [main]. *)
Definition backup_file : str := html_file ++ lit ".backup".

(** What the download phase may do: requests, pauses, and writes of files
    whose name ends in .png. *)
Definition is_download_event (ev : event) : bool :=
  match ev with
  | EvGet _ _ _ | EvSleep _ | EvMkdir _ => true
  | EvWrite p => endswith p (lit ".png")
  | EvRename _ _ => false
  end.

(** The download phase leads from [st] to [st']: files whose name does
    not end in .png are as before, and the trace has grown by download
    events. *)
Definition download_step (st st' : State) : Prop :=
  (forall p, endswith p (lit ".png") = false -> fs st' p = fs st p)
  /\ exists evs, trace st' = trace st ++ evs
                 /\ forallb is_download_event evs = true.

(** The download phase of [main] on a page with the text [text], started
    in the state [st]: the mapping and the state it ends in. *)
Definition download_phase (env : Env) (text : str) (st : State)
  : dict * State :=
  download_loop env download_dir create_session (extract_from_text text) []
                (snd (emit (EvMkdir download_dir) st)).

(** ** Worlds and pages used in the examples *)

Definition dquote : ascii := "034"%char.

(** An image tag with the value [v] of its [src] attribute. *)
Definition img_tag (v : str) : str :=
  lit "<img src=" ++ [dquote] ++ v ++ [dquote] ++ lit ">".

(** The part of [img_pattern] from the text src= on. *)
Definition attr_items : list item :=
  lits "src="
  ++ [Item (Only quote_chars) Once false;
      Item (Except quote_chars) Plus true;
      Item (Only quote_chars) Once false;
      Item (Except [">"%char]) Star false;
      Item (Only [">"%char]) Once false].

Definition is_quote (c : ascii) : bool := existsb (Ascii.eqb c) quote_chars.

(** A plain value of a [src] attribute: not empty, without quote
    characters and without >, and not ending in the text src= (which,
    followed by the closing quote, would read as the start of another
    attribute). *)
Definition src_value_ok (v : str) : bool :=
  negb (str_eqb v [])
  && forallb (fun c => negb (is_quote c) && negb (Ascii.eqb c ">"%char)) v
  && negb (endswith v (lit "src=")).

Definition not_gt (c : ascii) : bool := negb (Ascii.eqb c ">"%char).











(** A non-empty end of [a] is a beginning of [b]. *)
Definition borders (a b : str) : bool :=
  existsb (fun n => startswith b (skipn n a)) (seq 0 (length a)).

(** The URL [x] and the local path [r] do not overlap: neither contains
    the other, and no non-empty end of one is a beginning of the other. *)
Definition no_overlap (x r : str) : bool :=
  negb (contains x r) && negb (contains r x)
  && negb (borders r x) && negb (borders x r).

(** Along the mapping, no URL substituted so far ([done]) or at this entry
    overlaps the local path of the entry. *)
Fixpoint no_overlaps (done : list str) (m : dict) : bool :=
  match m with
  | [] => true
  | (u, Some f) :: m' =>
      if truthy (Some f)
      then forallb (fun x => no_overlap x (local_path f)) (u :: done)
           && no_overlaps (u :: done) m'
      else no_overlaps done m'
  | (_, None) :: m' => no_overlaps done m'
  end.

(** The URL and the page that show what the substitution can leave. *)
Definition url_f : str := lit "http://h/./downloaded_images/f.png".

Definition page_f : str :=
  img_tag url_f ++ img_tag (lit "http://h/" ++ url_f).

(** No request is ever answered. *)
Definition env_offline : Env :=
  mkEnv (fun _ => 0%Z) (fun _ => true)
        (fun _ _ _ _ _ => Raise RequestException)
        (fun _ _ => WriteOk) (fun _ _ _ => true).

(** Every request is answered with status 200. *)
Definition env_online : Env :=
  mkEnv (fun _ => 0%Z) (fun _ => true)
        (fun _ _ _ _ _ => Ok (Response 200 (lit "PNG")))
        (fun _ _ => WriteOk) (fun _ _ _ => true).

(** A slow server with a valid certificate: it answers a verified request
    that waits for 60 seconds or more, and no other. *)
Definition env_slow : Env :=
  mkEnv (fun _ => 0%Z) (fun _ => true)
        (fun _ _ _ verify timeout =>
           match timeout with
           | Some t => if verify && (60 <=? t)%Z
                       then Ok (Response 200 (lit "PNG"))
                       else Raise RequestException
           | None => if verify then Ok (Response 200 (lit "PNG"))
                     else Raise RequestException
           end)
        (fun _ _ => WriteOk) (fun _ _ _ => true).

(** Only the URL [good] is answered. *)
Definition env_only (good : str) : Env :=
  mkEnv (fun _ => 0%Z) (fun _ => true)
        (fun _ _ url _ _ =>
           if str_eqb url good then Ok (Response 200 (lit "PNG"))
           else Raise RequestException)
        (fun _ _ => WriteOk) (fun _ _ _ => true).

(** Only http://h/b.png is answered. *)
Definition env_only_b : Env := env_only (lit "http://h/b.png").

(** Three references, the first and the last to the same URL. *)
Definition urls_aba : list str :=
  [lit "http://h/a.png"; lit "http://h/b.png"; lit "http://h/a.png"].

(** Only [url_f] is answered. *)
Definition env_f : Env := env_only url_f.

(** A mapping with two successes and a failure, and a page with the three
    references. *)
Definition mapping_abc : dict :=
  [(lit "https://cdn.example.com/a.png", Some (lit "a.png"));
   (lit "https://cdn.example.com/b.png", None);
   (lit "https://cdn.example.com/c.PNG", Some (lit "c.PNG.png"))].

Definition page_abc : str :=
  img_tag (lit "https://cdn.example.com/a.png")
  ++ img_tag (lit "https://cdn.example.com/b.png")
  ++ img_tag (lit "https://cdn.example.com/c.PNG").

(** A page with one image. *)
Definition page_b : str :=
  lit "<p>" ++ img_tag (lit "http://h/b.png") ++ lit "</p>".

(** A file system that holds the page and nothing else. *)
Definition page_state (text : str) : State :=
  mkState (fs_set (fun _ => None) html_file (Some text)) 0 [].

(** ** Definitions for the further properties *)

(** The text [s] starts with an image tag as the pattern reads it: <img,
    at least one character, src=, a quote, the value [v] (not empty,
    without quotes), a quote, more characters and >; there is no > between
    <img and src= nor between the closing quote and the final >; [rest] is
    the text after the tag. *)
Definition is_img_match (s v rest : str) : Prop :=
  exists pre q1 q2 post,
    s = lit "<img" ++ pre ++ lit "src=" ++ q1 :: v ++ q2 :: post
        ++ ">"%char :: rest
    /\ pre <> [] /\ forallb not_gt pre = true
    /\ is_quote q1 = true /\ is_quote q2 = true
    /\ v <> [] /\ forallb (fun c => negb (is_quote c)) v = true
    /\ forallb not_gt post = true.

(** A page with a link and no image. *)
Definition page_link : str :=
  lit "<p>no picture, only a <a href='x.png'>link</a></p>".

(** An image tag with the text [mid] between <img and the attribute and
    the text [post] between the attribute and >. *)
Definition img_tag_with (mid v post : str) : str :=
  lit "<img" ++ mid ++ lit "src=" ++ [dquote] ++ v ++ [dquote] ++ post
  ++ lit ">".

(** The text of a tag before its last attribute: a [src] attribute with
    the value a.png, then the start of a [data-src] attribute. *)
Definition mid_src_a : str :=
  lit " src=" ++ [dquote] ++ lit "a.png" ++ [dquote] ++ lit " data-".

(** The response a request is accepted with: the answer, unless the
    request failed or the status is from 400 to 599. *)
Definition accepted (a : result response) : option response :=
  match a with
  | Ok r => if (400 <=? status_code r)%Z && (status_code r <? 600)%Z
            then None else Some r
  | Raise _ => None
  end.

(** The state after [events] and [n] more calls of [session.get]. *)
Definition advance (st : State) (n : nat) (events : list event) : State :=
  mkState (fs st) (n + requests st) (trace st ++ events).

(** The pauses of the script itself ([time.sleep]) in a trace, in
    milliseconds. *)
Fixpoint pause_total (evs : list event) : Z :=
  match evs with
  | [] => 0
  | EvSleep ms :: evs' => ms + pause_total evs'
  | _ :: evs' => pause_total evs'
  end.

(** The answer to every request from the [n]-th on is a picture; earlier
    requests fail. *)
Definition env_from (n : nat) : Env :=
  mkEnv (fun _ => 0%Z) (fun _ => true)
        (fun _ k _ _ _ =>
           if n <=? k then Ok (Response 200 (lit "PNG"))
           else Raise RequestException)
        (fun _ _ => WriteOk) (fun _ _ _ => true).

(** The first request is answered with status 404, the second with a
    picture. *)
Definition env_404_then_ok : Env :=
  mkEnv (fun _ => 0%Z) (fun _ => true)
        (fun _ k _ _ _ =>
           if k =? 0 then Ok (Response 404 (lit "not found"))
           else Ok (Response 200 (lit "PNG")))
        (fun _ _ => WriteOk) (fun _ _ _ => true).


(** What a run added to the state: [n] calls of [session.get] and the
    events [evs]. *)
Definition grows (st st' : State) (n : nat) (evs : list event) : Prop :=
  requests st' = n + requests st /\ trace st' = trace st ++ evs.

(** * Properties *)

(** ** Text *)

Lemma str_eqb_eq (a b : str) : str_eqb a b = true <-> a = b.
Proof.
  unfold str_eqb. destruct (list_eq_dec ascii_dec a b); split; congruence.
Qed.

Lemma str_eqb_refl (a : str) : str_eqb a a = true.
Proof. apply str_eqb_eq. reflexivity. Qed.

Lemma str_eqb_neq (a b : str) : str_eqb a b = false <-> a <> b.
Proof.
  unfold str_eqb. destruct (list_eq_dec ascii_dec a b); split; congruence.
Qed.

Lemma startswith_app (p s : str) : startswith (p ++ s) p = true.
Proof.
  induction p as [|c p IH]; simpl; [reflexivity|].
  rewrite Ascii.eqb_refl. exact IH.
Qed.

Lemma startswith_inv (p s : str) :
  startswith s p = true -> exists t, s = p ++ t.
Proof.
  revert s. induction p as [|c p IH]; intros s H; simpl in H.
  - exists s. reflexivity.
  - destruct s as [|d s]; [discriminate|].
    apply andb_true_iff in H. destruct H as [Hc Hp].
    apply Ascii.eqb_eq in Hc. subst d.
    destruct (IH _ Hp) as [t ->]. exists t. reflexivity.
Qed.

Lemma endswith_app (a suf : str) : endswith (a ++ suf) suf = true.
Proof.
  unfold endswith. rewrite length_app.
  replace (length a + length suf - length suf) with (length a + 0) by lia.
  rewrite skipn_app, skipn_all2 by lia. simpl.
  replace (length a + 0 - length a) with 0 by lia. simpl.
  rewrite str_eqb_refl.
  replace (length suf <=? length a + length suf) with true; [reflexivity|].
  symmetry. apply Nat.leb_le. lia.
Qed.

Lemma endswith_inv (s suf : str) :
  endswith s suf = true -> exists a, s = a ++ suf.
Proof.
  unfold endswith. intros H. apply andb_true_iff in H. destruct H as [_ H].
  apply str_eqb_eq in H.
  exists (firstn (length s - length suf) s).
  pose proof (firstn_skipn (length s - length suf) s) as E.
  rewrite H in E. symmetry. exact E.
Qed.

Lemma contains_startswith (s sub : str) :
  startswith s sub = true -> contains s sub = true.
Proof. intros H. destruct s; simpl in *; rewrite H; reflexivity. Qed.

Lemma contains_app_l (a b sub : str) :
  contains b sub = true -> contains (a ++ b) sub = true.
Proof.
  intros H. induction a as [|c a IH]; simpl; [exact H|].
  rewrite IH. apply orb_true_r.
Qed.

Lemma contains_inv (s sub : str) :
  contains s sub = true -> exists a b, s = a ++ sub ++ b.
Proof.
  induction s as [|c s IH]; simpl; intros H.
  - destruct sub; [|discriminate]. exists [], []. reflexivity.
  - apply orb_true_iff in H. destruct H as [H|H].
    + destruct (startswith_inv _ _ H) as [t Ht]. exists [], t. exact Ht.
    + destruct (IH H) as (a & b & ->). exists (c :: a), b. reflexivity.
Qed.

Lemma contains_intro (a sub b : str) : contains (a ++ sub ++ b) sub = true.
Proof. apply contains_app_l, contains_startswith, startswith_app. Qed.

Lemma lower_app (a b : str) : lower (a ++ b) = lower a ++ lower b.
Proof. apply map_app. Qed.

Lemma lower_ascii_dot (c : ascii) : lower_ascii c = "."%char -> c = "."%char.
Proof.
  destruct c as [[] [] [] [] [] [] [] []]; vm_compute; intros H;
    first [reflexivity | discriminate H].
Qed.

Lemma has_char_app (c : ascii) (a b : str) :
  has_char c (a ++ b) = has_char c a || has_char c b.
Proof. apply existsb_app. Qed.

Lemma has_char_false (c : ascii) (s : str) :
  has_char c s = false <-> ~ In c s.
Proof.
  unfold has_char. split.
  - intros H Hin. assert (existsb (Ascii.eqb c) s = true); [|congruence].
    apply existsb_exists. exists c. split; [exact Hin|apply Ascii.eqb_refl].
  - intros H. destruct (existsb (Ascii.eqb c) s) eqn:E; [|reflexivity].
    apply existsb_exists in E. destruct E as (x & Hx & Hc).
    apply Ascii.eqb_eq in Hc. subst x. contradiction.
Qed.

Lemma endswith_png_nonempty (s : str) :
  endswith s (lit ".png") = true -> s <> [].
Proof. intros H ->. discriminate H. Qed.

(** The last step of the file name derivation always yields the
    extension. *)
Lemma ensure_png (f : str) :
  endswith (if negb (endswith f (lit ".png")) then f ++ lit ".png" else f)
           (lit ".png") = true.
Proof.
  destruct (endswith f (lit ".png")) eqn:E; simpl;
    [exact E | apply endswith_app].
Qed.

Lemma derive_filename_png (env : Env) (url f : str) :
  derive_filename env url = Ok f -> endswith f (lit ".png") = true.
Proof.
  unfold derive_filename.
  destruct (urlparse_path (netloc_ok env) url) as [path|]; [|discriminate].
  intros H. injection H as <-. apply ensure_png.
Qed.

Lemma download_image_filename (env : Env) (url save_dir : str) (s : session)
      (st st' : State) (f : str) :
  download_image env url save_dir s st = (Some f, st') ->
  derive_filename env url = Ok f.
Proof.
  unfold download_image, bind, ret. intros H.
  destruct (fetch env s url st) as [[r|e] st1]; [|discriminate].
  destruct (derive_filename env url) as [f'|e]; [|discriminate].
  destruct (write_file env (os_path_join save_dir f') (content r) st1)
    as [[[]|e] st2]; [|discriminate].
  congruence.
Qed.

(** ** C9, C10, C4: the extension test and the file name *)

(** C9: the test of the extractor, "ends with .png or contains png when
    lower-cased", accepts the same values as the substring test alone: a
    value that ends with .png contains png once lower-cased. *)
Theorem C9_suffix_test_redundant (s : str) :
  (endswith s (lit ".png") = true -> contains (lower s) (lit "png") = true)
  /\ is_png_url s = contains (lower s) (lit "png").
Proof.
  assert (Himp : endswith s (lit ".png") = true ->
                 contains (lower s) (lit "png") = true).
  { intros H. destruct (endswith_inv _ _ H) as [a ->].
    rewrite lower_app. apply contains_app_l. reflexivity. }
  split; [exact Himp|].
  unfold is_png_url. destruct (endswith s (lit ".png")); simpl;
    [symmetry; auto | reflexivity].
Qed.

Lemma C9_witness :
  endswith (lit "a.png") (lit ".png") = true
  /\ contains (lower (lit "a.png")) (lit "png") = true
  /\ is_png_url (lit "a.png") = contains (lower (lit "a.png")) (lit "png").
Proof.
  split; [reflexivity|].
  destruct (C9_suffix_test_redundant (lit "a.png")) as [H1 H2].
  split; [apply H1; reflexivity | exact H2].
Defined.

(** C10: the suffix test of the file name derivation is case-sensitive.
    When the base name of the URL's path ends in .png only up to case (as
    c.PNG does), the file name is the base name with .png appended. *)
Theorem C10_uppercase_extension_doubled (env : Env) (url path : str)
        (Hpath : urlparse_path (netloc_ok env) url = Some path)
        (Hvariant : endswith (lower (os_path_basename path)) (lit ".png")
                    = true)
        (Hnot : endswith (os_path_basename path) (lit ".png") = false) :
  derive_filename env url = Ok (os_path_basename path ++ lit ".png").
Proof.
  unfold derive_filename. rewrite Hpath.
  set (b := os_path_basename path) in *.
  assert (Hdot : has_char "."%char b = true).
  { destruct (endswith_inv _ _ Hvariant) as [a Ha].
    apply map_eq_app in Ha. destruct Ha as (b1 & b2 & Hb & _ & Hb2).
    apply map_eq_cons in Hb2. destruct Hb2 as (c & t & -> & Hc & _).
    apply lower_ascii_dot in Hc. subst c.
    rewrite Hb, has_char_app. simpl. apply orb_true_r. }
  assert (Hne : str_eqb b [] = false).
  { apply str_eqb_neq. intros E. rewrite E in Hdot. discriminate. }
  cbv zeta. rewrite Hne, Hdot. cbn [orb negb]. rewrite Hnot. reflexivity.
Qed.

Lemma C10_witness :
  urlparse_path (netloc_ok env_offline) (lit "https://host/img/c.PNG")
  = Some (lit "/img/c.PNG")
  /\ endswith (lower (os_path_basename (lit "/img/c.PNG"))) (lit ".png") = true
  /\ endswith (os_path_basename (lit "/img/c.PNG")) (lit ".png") = false
  /\ derive_filename env_offline (lit "https://host/img/c.PNG")
     = Ok (lit "c.PNG.png").
Proof.
  split; [reflexivity|]. split; [reflexivity|]. split; [reflexivity|].
  apply (@C10_uppercase_extension_doubled env_offline
           (lit "https://host/img/c.PNG") (lit "/img/c.PNG")); reflexivity.
Defined.

Lemma derive_filename_synth (env : Env) (u path : str) :
  urlparse_path (netloc_ok env) u = Some path ->
  os_path_basename path = []
  \/ has_char "."%char (os_path_basename path) = false ->
  derive_filename env u
  = Ok (lit "image_" ++ str_of_int (py_hash env u) ++ lit ".png").
Proof.
  intros Hp Hb. unfold derive_filename. rewrite Hp. cbv zeta.
  assert (Hc : str_eqb (os_path_basename path) []
               || negb (has_char "."%char (os_path_basename path)) = true).
  { destruct Hb as [-> | ->]; [reflexivity|apply orb_true_r]. }
  rewrite Hc.
  rewrite (app_assoc (lit "image_")), endswith_app. reflexivity.
Qed.

(** C4: the file name comes from the path of the URL: pic.png for
    https://host/path/pic.png; a name made of image_, the hash of the URL
    and .png when the path has no file name (as for https://host/path/);
    and the file name of every successful download is not empty and ends
    in .png. *)
Theorem C4_filename_derivation (env : Env) (url save_dir : str) (s : session)
        (st st' : State) (filename : str)
        (Hok : download_image env url save_dir s st = (Some filename, st')) :
  derive_filename env url = Ok filename
  /\ filename <> []
  /\ endswith filename (lit ".png") = true
  /\ derive_filename env (lit "https://host/path/pic.png") = Ok (lit "pic.png")
  /\ derive_filename env (lit "https://host/path/")
     = Ok (lit "image_" ++ str_of_int (py_hash env (lit "https://host/path/"))
             ++ lit ".png")
  /\ forall u path,
       urlparse_path (netloc_ok env) u = Some path ->
       os_path_basename path = []
       \/ has_char "."%char (os_path_basename path) = false ->
       derive_filename env u
       = Ok (lit "image_" ++ str_of_int (py_hash env u) ++ lit ".png").
Proof.
  pose proof (download_image_filename _ _ _ _ _ Hok) as Hd.
  pose proof (derive_filename_png _ _ Hd) as Hpng.
  split; [exact Hd|]. split; [exact (endswith_png_nonempty Hpng)|].
  split; [exact Hpng|]. split; [reflexivity|]. split.
  - apply derive_filename_synth with (path := lit "/path/");
      [reflexivity | left; reflexivity].
  - intros u path. apply derive_filename_synth.
Qed.

Lemma C4_witness :
  download_image env_online (lit "https://host/path/pic.png") download_dir
                 create_session (page_state [])
  = (Some (lit "pic.png"),
     snd (download_image env_online (lit "https://host/path/pic.png")
                         download_dir create_session (page_state [])))
  /\ lit "pic.png" <> []
  /\ endswith (lit "pic.png") (lit ".png") = true.
Proof.
  split; [reflexivity|].
  refine (let H := @C4_filename_derivation env_online
                     (lit "https://host/path/pic.png") download_dir
                     create_session (page_state []) _ (lit "pic.png")
                     eq_refl in _).
  destruct H as (_ & H1 & H2 & _). split; assumption.
Defined.

(** ** C1: the fallback over request configurations *)

(** A configuration without [timeout] sends one request with the timeout
    of 30 seconds. *)
Lemma attempt_verify (env : Env) (s : session) (url : str) (b : bool)
      (st : State) :
  attempt env s url [("verify"%string, PyBool b)] st
  = (match http_get env s (requests st) url b (Some 30%Z) with
     | Ok r => if (400 <=? status_code r)%Z && (status_code r <? 600)%Z
               then Raise (HTTPError (status_code r)) else Ok r
     | Raise e => Raise e
     end,
     mkState (fs st) (S (requests st))
             (trace st ++ [EvGet url b (Some 30%Z)])).
Proof.
  unfold attempt, bind, session_get, raise_for_status. cbn.
  destruct (http_get env s (requests st) url b (Some 30%Z)) as [r|e];
    [|reflexivity].
  destruct ((400 <=? status_code r)%Z && (status_code r <? 600)%Z);
    reflexivity.
Qed.

(** The third configuration names [timeout], which the call already
    gives: the call raises before any request is sent. *)
Lemma attempt_third (env : Env) (s : session) (url : str) (st : State) :
  attempt env s url
          [("verify"%string, PyBool true); ("timeout"%string, PyInt 60)] st
  = (Raise TypeError, st).
Proof. reflexivity. Qed.

(** C1 (as the code behaves): the first two configurations are tried in
    order, each sending one request with the timeout of 30 seconds, with a
    pause of one second after a failure; the third configuration never
    sends a request, its call raises [TypeError], which is the failure
    propagated when the first two have failed. *)
Theorem C1_third_configuration_never_sent (env : Env) (s : session)
        (url : str) (st : State) :
  match fetch env s url st with
  | (Ok _, st') =>
      (trace st' = trace st ++ [EvGet url true (Some 30%Z)]
       /\ requests st' = 1 + requests st)
      \/ (trace st' = trace st ++ [EvGet url true (Some 30%Z); EvSleep 1000;
                                   EvGet url false (Some 30%Z)]
          /\ requests st' = 2 + requests st)
  | (Raise e, st') =>
      e = TypeError
      /\ trace st' = trace st ++ [EvGet url true (Some 30%Z); EvSleep 1000;
                                  EvGet url false (Some 30%Z); EvSleep 1000]
      /\ requests st' = 2 + requests st
  end.
Proof.
  unfold fetch, ssl_options. cbn [fetch_loop length].
  rewrite attempt_verify.
  destruct (match http_get env s (requests st) url true (Some 30%Z) with
            | Ok r => if (400 <=? status_code r)%Z && (status_code r <? 600)%Z
                      then Raise (HTTPError (status_code r)) else Ok r
            | Raise e => Raise e
            end) as [r1|e1].
  { left. split; reflexivity. }
  cbn [Nat.eqb Nat.sub]. unfold bind at 1. unfold sleep, emit.
  cbn [fs requests trace].
  rewrite attempt_verify. cbn [fs requests trace].
  match goal with
  | |- context [match ?x with Ok _ => _ | Raise _ => _ end] =>
      destruct x as [r2|e2] eqn:E2
  end.
  - destruct ((400 <=? status_code r2)%Z && (status_code r2 <? 600)%Z).
    + cbn. rewrite <- !app_assoc. auto.
    + right. rewrite <- !app_assoc. split; reflexivity.
  - cbn. rewrite <- !app_assoc. auto.
Qed.

(** The slow server: the extended timeout would have been answered, and
    the download fails all the same. *)
Example slow_server_download_fails :
  fst (session_get env_slow create_session (lit "https://slow/a.png")
         [("verify"%string, PyBool true); ("timeout"%string, PyInt 60)]
         (page_state []))
  = Ok (Response 200 (lit "PNG"))
  /\ fst (fetch env_slow create_session (lit "https://slow/a.png")
            (page_state []))
     = Raise TypeError
  /\ fst (download_image env_slow (lit "https://slow/a.png") download_dir
            create_session (page_state []))
     = None.
Proof. repeat split; reflexivity. Qed.

(** ** The mapping *)

Lemma keys_dict_set (k : str) (v : option str) (d : dict) :
  keys (dict_set k v d)
  = if in_dec (list_eq_dec ascii_dec) k (keys d) then keys d
    else keys d ++ [k].
Proof.
  induction d as [|[k' v'] d IH]; simpl; [reflexivity|].
  destruct (str_eqb k' k) eqn:E.
  - apply str_eqb_eq in E. subst k'. simpl.
    destruct (list_eq_dec ascii_dec k k); [reflexivity|contradiction].
  - apply str_eqb_neq in E. simpl. rewrite IH.
    destruct (list_eq_dec ascii_dec k' k); [contradiction|].
    destruct (in_dec (list_eq_dec ascii_dec) k (keys d)); reflexivity.
Qed.

Lemma in_keys_dict_set (k : str) (v : option str) (d : dict) (x : str) :
  In x (keys (dict_set k v d)) <-> x = k \/ In x (keys d).
Proof.
  rewrite keys_dict_set.
  destruct (in_dec (list_eq_dec ascii_dec) k (keys d)) as [Hin|Hin].
  - split; [auto|]. intros [->|H]; assumption.
  - rewrite in_app_iff. simpl. intuition.
Qed.

Lemma NoDup_keys_dict_set (k : str) (v : option str) (d : dict) :
  NoDup (keys d) -> NoDup (keys (dict_set k v d)).
Proof.
  intros H. rewrite keys_dict_set.
  destruct (in_dec (list_eq_dec ascii_dec) k (keys d)) as [Hin|Hin];
    [exact H|].
  apply NoDup_app; [exact H | repeat constructor; simpl; tauto |].
  intros x Hx [<-|[]]. contradiction.
Qed.

Lemma dict_get_set_same (k : str) (v : option str) (d : dict) :
  dict_get k (dict_set k v d) = Some v.
Proof.
  induction d as [|[k' v'] d IH]; simpl.
  - rewrite str_eqb_refl. reflexivity.
  - destruct (str_eqb k' k) eqn:E; simpl.
    + rewrite str_eqb_refl. reflexivity.
    + rewrite E. exact IH.
Qed.

Lemma dict_get_set_other (k x : str) (v : option str) (d : dict) :
  x <> k -> dict_get x (dict_set k v d) = dict_get x d.
Proof.
  intros Hx. induction d as [|[k' v'] d IH]; simpl.
  - destruct (str_eqb k x) eqn:E; [|reflexivity].
    apply str_eqb_eq in E. congruence.
  - destruct (str_eqb k' k) eqn:E; simpl.
    + apply str_eqb_eq in E. subst k'.
      destruct (str_eqb k x) eqn:E'; [|reflexivity].
      apply str_eqb_eq in E'. congruence.
    + rewrite IH. reflexivity.
Qed.

Lemma dict_get_in_keys (x : str) (d : dict) :
  In x (keys d) <-> exists v, dict_get x d = Some v.
Proof.
  induction d as [|[k' v'] d IH]; simpl.
  - split; [tauto|]. intros [v H]. discriminate.
  - destruct (str_eqb k' x) eqn:E.
    + apply str_eqb_eq in E. split; [eauto | auto].
    + apply str_eqb_neq in E. rewrite <- IH. tauto.
Qed.

(** ** The download loop *)

Lemma download_loop_cons (env : Env) (dir : str) (s : session) (url : str)
      (rest : list str) (m : dict) (st : State) :
  download_loop env dir s (url :: rest) m st
  = download_loop env dir s rest
      (dict_set url (fst (download_image env url dir s st)) m)
      (snd (sleep 500 (snd (download_image env url dir s st)))).
Proof.
  simpl. destruct (download_image env url dir s st). reflexivity.
Qed.

Lemma download_loop_app (env : Env) (dir : str) (s : session)
      (a b : list str) (m : dict) (st : State) :
  download_loop env dir s (a ++ b) m st
  = download_loop env dir s b (fst (download_loop env dir s a m st))
                  (snd (download_loop env dir s a m st)).
Proof.
  revert m st. induction a as [|u a IH]; intros m st; [reflexivity|].
  rewrite <- app_comm_cons, !download_loop_cons. apply IH.
Qed.

Lemma download_loop_keys (env : Env) (dir : str) (s : session)
      (urls : list str) (m : dict) (st : State) (x : str) :
  In x (keys (fst (download_loop env dir s urls m st)))
  <-> In x (keys m) \/ In x urls.
Proof.
  revert m st. induction urls as [|u urls IH]; intros m st.
  - simpl. tauto.
  - rewrite download_loop_cons, IH, in_keys_dict_set. simpl.
    split; intros H; repeat destruct H as [H|H]; subst; auto.
Qed.

Lemma download_loop_NoDup (env : Env) (dir : str) (s : session)
      (urls : list str) (m : dict) (st : State) :
  NoDup (keys m) -> NoDup (keys (fst (download_loop env dir s urls m st))).
Proof.
  revert m st. induction urls as [|u urls IH]; intros m st H.
  - exact H.
  - rewrite download_loop_cons. apply IH, NoDup_keys_dict_set, H.
Qed.

Lemma download_loop_get_other (env : Env) (dir : str) (s : session)
      (urls : list str) (m : dict) (st : State) (x : str) :
  ~ In x urls ->
  dict_get x (fst (download_loop env dir s urls m st)) = dict_get x m.
Proof.
  revert m st. induction urls as [|u urls IH]; intros m st H.
  - reflexivity.
  - rewrite download_loop_cons, IH by (simpl in H; tauto).
    apply dict_get_set_other. simpl in H. intros ->. tauto.
Qed.

Lemma download_image_value_ok (env : Env) (url dir : str) (s : session)
      (st : State) :
  value_ok (fst (download_image env url dir s st)).
Proof.
  destruct (download_image env url dir s st) as [[f|] st'] eqn:E; simpl;
    [|exact I].
  eapply derive_filename_png, download_image_filename, E.
Qed.

Lemma dict_set_values_ok (k : str) (v : option str) (d : dict) :
  value_ok v -> Forall (fun e => value_ok (snd e)) d ->
  Forall (fun e => value_ok (snd e)) (dict_set k v d).
Proof.
  intros Hv Hd. induction Hd as [|[k' v'] d Hx Hd IH]; simpl.
  - repeat constructor. exact Hv.
  - destruct (str_eqb k' k); constructor; auto.
Qed.

Lemma download_loop_values_ok (env : Env) (dir : str) (s : session)
      (urls : list str) (m : dict) (st : State) :
  Forall (fun e => value_ok (snd e)) m ->
  Forall (fun e => value_ok (snd e)) (fst (download_loop env dir s urls m st)).
Proof.
  revert m st. induction urls as [|u urls IH]; intros m st H.
  - exact H.
  - rewrite download_loop_cons.
    apply IH, dict_set_values_ok; [apply download_image_value_ok | exact H].
Qed.

(** C8: the mapping of the download phase has exactly one entry for every
    distinct input URL: its keys are without repetition, they are the
    input URLs, and there are as many entries as distinct URLs (as many as
    URLs when no URL is repeated); every value is [None] or a file
    name. *)
Theorem C8_mapping_one_entry_per_url (env : Env) (dir : str) (s : session)
        (urls : list str) (st : State) :
  let m := fst (download_loop env dir s urls [] st) in
  NoDup (keys m)
  /\ (forall u, In u (keys m) <-> In u urls)
  /\ length m = length (nodup (list_eq_dec ascii_dec) urls)
  /\ (NoDup urls -> length m = length urls)
  /\ Forall (fun e => value_ok (snd e)) m.
Proof.
  intros m.
  assert (Hnd : NoDup (keys m)) by (apply download_loop_NoDup; constructor).
  assert (Hin : forall u, In u (keys m) <-> In u urls).
  { intros u. unfold m. rewrite download_loop_keys. simpl. tauto. }
  assert (Hlen : length m = length (nodup (list_eq_dec ascii_dec) urls)).
  { rewrite <- (length_map fst m). fold (keys m).
    apply Nat.le_antisymm; apply NoDup_incl_length;
      try exact Hnd; try apply NoDup_nodup;
      intros x Hx;
      [apply nodup_In, Hin, Hx | apply Hin; apply nodup_In in Hx; exact Hx]. }
  repeat split; try assumption; try apply Hin.
  - intros H. rewrite Hlen, nodup_fixed_point by exact H. reflexivity.
  - apply download_loop_values_ok. constructor.
Qed.

Lemma C8_witness :
  fst (download_loop env_only_b download_dir create_session urls_aba []
                     (page_state []))
  = [(lit "http://h/a.png", None); (lit "http://h/b.png", Some (lit "b.png"))]
  /\ NoDup (keys (fst (download_loop env_only_b download_dir create_session
                                     urls_aba [] (page_state []))))
  /\ In (lit "http://h/a.png")
        (keys (fst (download_loop env_only_b download_dir create_session
                                  urls_aba [] (page_state []))))
  /\ length (fst (download_loop env_only_b download_dir create_session
                                urls_aba [] (page_state []))) = 2.
Proof.
  destruct (@C8_mapping_one_entry_per_url env_only_b download_dir
              create_session urls_aba (page_state [])) as (H1 & H2 & H3 & _).
  split; [reflexivity|]. split; [exact H1|].
  split; [apply H2; left; reflexivity | exact H3].
Defined.

(** ** C3: a failed download does not stop the loop *)

Lemma download_image_fetch_fails (env : Env) (url dir : str) (s : session)
      (st st2 : State) (e : exn) :
  fetch env s url st = (Raise e, st2) ->
  download_image env url dir s st = (None, st2).
Proof.
  intros H. unfold download_image, bind. rewrite H. reflexivity.
Qed.

(** C3: when the fetch of a URL fails under every configuration, the
    download of that URL returns [None], the loop stores [None] for the
    URL and goes on with the URLs that follow; in the mapping returned the
    URL is still a key, bound to [None] unless the same URL comes again
    later, and every later URL has its entry. *)
Theorem C3_failed_download_continues (env : Env) (dir : str) (s : session)
        (pre post : list str) (u : str) (st st1 st2 : State) (m1 : dict)
        (e : exn)
        (Hpre : download_loop env dir s pre [] st = (m1, st1))
        (Hfail : fetch env s u st1 = (Raise e, st2)) :
  download_image env u dir s st1 = (None, st2)
  /\ download_loop env dir s (pre ++ u :: post) [] st
     = download_loop env dir s post (dict_set u None m1)
                     (snd (sleep 500 st2))
  /\ dict_get u (dict_set u None m1) = Some None
  /\ In u (keys (fst (download_loop env dir s (pre ++ u :: post) [] st)))
  /\ (~ In u post ->
      dict_get u (fst (download_loop env dir s (pre ++ u :: post) [] st))
      = Some None)
  /\ (forall x, In x post ->
      exists v,
        dict_get x (fst (download_loop env dir s (pre ++ u :: post) [] st))
        = Some v).
Proof.
  pose proof (@download_image_fetch_fails env u dir s st1 st2 e Hfail) as Himg.
  assert (Hloop : download_loop env dir s (pre ++ u :: post) [] st
                  = download_loop env dir s post (dict_set u None m1)
                                  (snd (sleep 500 st2))).
  { rewrite download_loop_app, Hpre. cbn [fst snd].
    rewrite download_loop_cons, Himg. reflexivity. }
  split; [exact Himg|]. split; [exact Hloop|].
  split; [apply dict_get_set_same|].
  split; [|split].
  - apply download_loop_keys. right. apply in_or_app. right. left. reflexivity.
  - intros Hnot. rewrite Hloop, download_loop_get_other by exact Hnot.
    apply dict_get_set_same.
  - intros x Hx. apply dict_get_in_keys, download_loop_keys.
    right. apply in_or_app. right. right. exact Hx.
Qed.

Lemma C3_witness :
  download_loop env_only_b download_dir create_session [] [] (page_state [])
  = ([], page_state [])
  /\ fetch env_only_b create_session (lit "http://h/a.png") (page_state [])
     = (Raise TypeError,
        snd (fetch env_only_b create_session (lit "http://h/a.png")
                   (page_state [])))
  /\ fst (download_loop env_only_b download_dir create_session
            ([] ++ lit "http://h/a.png" :: [lit "http://h/b.png"]) []
            (page_state []))
     = [(lit "http://h/a.png", None);
        (lit "http://h/b.png", Some (lit "b.png"))]
  /\ dict_get (lit "http://h/a.png")
       (fst (download_loop env_only_b download_dir create_session
               ([] ++ lit "http://h/a.png" :: [lit "http://h/b.png"]) []
               (page_state [])))
     = Some None.
Proof.
  split; [reflexivity|]. split; [reflexivity|]. split; [reflexivity|].
  refine (let H := @C3_failed_download_continues env_only_b download_dir
                     create_session [] [lit "http://h/b.png"]
                     (lit "http://h/a.png") (page_state []) (page_state [])
                     _ [] TypeError eq_refl eq_refl in _).
  destruct H as (_ & _ & _ & _ & H & _). apply H.
  simpl. intros [H0|[]]. discriminate H0.
Defined.

(** ** The state during the download phase *)

Lemma download_step_refl (st : State) : download_step st st.
Proof.
  split; [reflexivity|]. exists []. rewrite app_nil_r. split; reflexivity.
Qed.

Lemma download_step_trans (a b c : State) :
  download_step a b -> download_step b c -> download_step a c.
Proof.
  intros [Hf1 (e1 & Ht1 & He1)] [Hf2 (e2 & Ht2 & He2)]. split.
  - intros p Hp. rewrite Hf2, Hf1 by exact Hp. reflexivity.
  - exists (e1 ++ e2). rewrite Ht2, Ht1, app_assoc, forallb_app, He1, He2.
    split; reflexivity.
Qed.

Lemma download_step_emit (ev : event) (st : State) :
  is_download_event ev = true -> download_step st (snd (emit ev st)).
Proof.
  intros H. split; [reflexivity|]. exists [ev]. simpl. rewrite H.
  split; reflexivity.
Qed.

Lemma attempt_step (env : Env) (s : session) (url : str) (cfg : kwargs)
      (st : State) :
  download_step st (snd (attempt env s url cfg st)).
Proof.
  unfold attempt.
  destruct (call_kwargs [("timeout"%string, PyInt 30)] cfg) as [kw|e];
    [|apply download_step_refl].
  unfold bind, session_get, raise_for_status, raise, ret.
  match goal with
  | |- context [http_get ?a ?b ?c ?d ?e ?f] =>
      destruct (http_get a b c d e f) as [r|e']
  end; cbn [snd].
  - destruct ((400 <=? status_code r)%Z && (status_code r <? 600)%Z);
      cbn [snd]; (split; [reflexivity|]);
      eexists [_]; split; reflexivity.
  - split; [reflexivity|]. eexists [_]. split; reflexivity.
Qed.

Lemma fetch_loop_step (env : Env) (s : session) (url : str) (n : nat)
      (opts : list kwargs) (i : nat) (st : State) :
  download_step st (snd (fetch_loop env s url n i opts st)).
Proof.
  revert i st. induction opts as [|cfg rest IH]; intros i st.
  - apply download_step_refl.
  - cbn [fetch_loop].
    pose proof (attempt_step env s url cfg st) as Ha.
    destruct (attempt env s url cfg st) as [[r|e] st1]; cbn [snd] in *;
      [exact Ha|].
    destruct (i =? n - 1); [exact Ha|].
    unfold bind. cbn [sleep emit].
    eapply download_step_trans; [exact Ha|].
    eapply download_step_trans; [|apply IH].
    apply (@download_step_emit (EvSleep 1000) st1). reflexivity.
Qed.

Lemma endswith_app_l (a b suf : str) :
  endswith b suf = true -> endswith (a ++ b) suf = true.
Proof.
  intros H. destruct (endswith_inv _ _ H) as [c ->].
  rewrite app_assoc. apply endswith_app.
Qed.

Lemma os_path_join_endswith (a b suf : str) :
  endswith b suf = true -> endswith (os_path_join a b) suf = true.
Proof.
  intros H. unfold os_path_join.
  destruct (startswith b (lit "/")); [exact H|].
  destruct (str_eqb a [] || endswith a (lit "/")).
  - apply endswith_app_l, H.
  - apply endswith_app_l, endswith_app_l, H.
Qed.

Lemma fs_set_other (f : str -> option str) (p q : str) (v : option str) :
  q <> p -> fs_set f p v q = f q.
Proof.
  intros H. unfold fs_set. apply str_eqb_neq in H. rewrite H. reflexivity.
Qed.

Lemma fs_set_same (f : str -> option str) (p : str) (v : option str) :
  fs_set f p v p = v.
Proof. unfold fs_set. rewrite str_eqb_refl. reflexivity. Qed.

Lemma write_file_png_step (env : Env) (path data : str) (st : State) :
  endswith path (lit ".png") = true ->
  download_step st (snd (write_file env path data st)).
Proof.
  intros Hp. unfold write_file.
  destruct (fs_write env path data); cbn [snd];
    try apply download_step_refl;
    (split;
     [ intros q Hq; cbn [fs]; apply fs_set_other; intros ->; congruence
     | exists [EvWrite path]; split; [reflexivity|];
       unfold forallb, is_download_event; rewrite Hp; reflexivity ]).
Qed.

Lemma download_image_step (env : Env) (url dir : str) (s : session)
      (st : State) :
  download_step st (snd (download_image env url dir s st)).
Proof.
  unfold download_image, bind, ret.
  pose proof (fetch_loop_step env s url (length ssl_options) ssl_options 0 st)
    as Hf.
  fold (fetch env s url) in Hf.
  destruct (fetch env s url st) as [[r|e] st1]; cbn [snd] in *; [|exact Hf].
  destruct (derive_filename env url) as [f|e] eqn:Ed; cbn [snd]; [|exact Hf].
  pose proof (@write_file_png_step env (os_path_join dir f) (content r) st1
                (@os_path_join_endswith dir f (lit ".png")
                   (@derive_filename_png env url f Ed))) as Hw.
  destruct (write_file env (os_path_join dir f) (content r) st1)
    as [[[]|e] st2]; cbn [snd] in *;
    eapply download_step_trans; eassumption.
Qed.

Lemma download_loop_step (env : Env) (dir : str) (s : session)
      (urls : list str) (m : dict) (st : State) :
  download_step st (snd (download_loop env dir s urls m st)).
Proof.
  revert m st. induction urls as [|u urls IH]; intros m st.
  - apply download_step_refl.
  - rewrite download_loop_cons.
    eapply download_step_trans; [apply download_image_step|].
    eapply download_step_trans; [|apply IH].
    apply (@download_step_emit (EvSleep 500)). reflexivity.
Qed.

(** ** The run of [main] *)

Lemma html_file_not_png : endswith html_file (lit ".png") = false.
Proof. reflexivity. Qed.

Lemma backup_file_not_png : endswith backup_file (lit ".png") = false.
Proof. reflexivity. Qed.

Lemma backup_file_with_suffix :
  with_suffix html_file (lit ".html.backup") = Some backup_file.
Proof. reflexivity. Qed.

Lemma html_backup_distinct : str_eqb html_file backup_file = false.
Proof. reflexivity. Qed.

Lemma download_phase_step (env : Env) (text : str) (st : State) :
  download_step st (snd (download_phase env text st)).
Proof.
  unfold download_phase.
  eapply download_step_trans; [|apply download_loop_step].
  apply (@download_step_emit (EvMkdir download_dir)). reflexivity.
Qed.

(** [main] is the download phase followed, when a download succeeded, by
    [replace_image_urls]. *)
Lemma main_spec (env : Env) (st : State) (text : str) :
  fs st html_file = Some text ->
  main env st
  = if 0 <? success_count (fst (download_phase env text st))
    then replace_image_urls env html_file (fst (download_phase env text st))
                            (snd (download_phase env text st))
    else (Ok tt, snd (download_phase env text st)).
Proof.
  intros Hdoc. unfold main, download_phase, bind at 1.
  cbn [emit fs]. rewrite Hdoc.
  unfold extract_image_urls, bind, read_file, ret. cbn [fs emit snd].
  rewrite Hdoc.
  destruct (extract_from_text text) as [|u urls]; [reflexivity|].
  match goal with
  | |- (let (_, _) := ?x in _) = _ => destruct x as [m st1]
  end.
  reflexivity.
Qed.

(** [replace_image_urls] on the page of [main]. *)
Lemma replace_image_urls_spec (env : Env) (m : dict) (st1 : State)
      (text : str) :
  fs st1 html_file = Some text ->
  replace_image_urls env html_file m st1
  = if fs_rename env html_file backup_file
                 (match fs st1 backup_file with
                  | Some _ => true
                  | None => false
                  end)
    then write_file env html_file (rewrite_text text m)
           (mkState (fs_set (fs_set (fs st1) backup_file (Some text))
                            html_file None)
                    (requests st1)
                    (trace st1 ++ [EvRename html_file backup_file]))
    else (Raise OSError, st1).
Proof.
  intros Hdoc. unfold replace_image_urls, bind at 1, read_file.
  rewrite Hdoc, backup_file_with_suffix.
  unfold bind, os_rename. rewrite Hdoc, html_backup_distinct.
  destruct (fs_rename env html_file backup_file _); reflexivity.
Qed.

(** C6: when no download succeeded, [main] ends with the download phase:
    nothing is renamed, the page keeps its text, no file is created or
    changed other than files whose name ends in .png, so there is no
    backup file unless there was one before. *)
Theorem C6_zero_success_skips_rewrite (env : Env) (st : State) (text : str)
        (Hdoc : fs st html_file = Some text)
        (Hzero : success_count (fst (download_phase env text st)) = 0) :
  main env st = (Ok tt, snd (download_phase env text st))
  /\ fs (snd (main env st)) html_file = Some text
  /\ fs (snd (main env st)) backup_file = fs st backup_file
  /\ (forall p, endswith p (lit ".png") = false ->
                fs (snd (main env st)) p = fs st p)
  /\ exists evs, trace (snd (main env st)) = trace st ++ evs
                 /\ forallb is_download_event evs = true.
Proof.
  assert (Hmain : main env st = (Ok tt, snd (download_phase env text st))).
  { rewrite (main_spec env st Hdoc), Hzero. reflexivity. }
  rewrite Hmain. cbn [snd].
  destruct (download_phase_step env text st) as [Hfs Htr].
  split; [reflexivity|]. split; [|split; [|split]].
  - rewrite Hfs by exact html_file_not_png. exact Hdoc.
  - apply Hfs, backup_file_not_png.
  - exact Hfs.
  - exact Htr.
Qed.

Lemma C6_witness :
  fs (page_state page_b) html_file = Some page_b
  /\ success_count (fst (download_phase env_offline page_b (page_state page_b)))
     = 0
  /\ fs (snd (main env_offline (page_state page_b))) html_file = Some page_b
  /\ fs (snd (main env_offline (page_state page_b))) backup_file = None.
Proof.
  split; [reflexivity|]. split; [reflexivity|].
  destruct (@C6_zero_success_skips_rewrite env_offline (page_state page_b)
              page_b eq_refl eq_refl) as (_ & H1 & H2 & _).
  split; [exact H1 | exact H2].
Defined.

(** C7: when a download succeeded, [main] renames the page to the backup
    path, which is the path of the page with .backup appended, and then
    writes the rewritten text to the path of the page.  The backup holds
    the text of the page; no other file is touched by the rewrite; the
    download phase before it renames nothing and writes only files whose
    name ends in .png, so the rename and the write happen at most once in
    a run, and not at all when no download succeeded. *)
Theorem C7_backup_then_write (env : Env) (st : State) (text : str)
        (Hdoc : fs st html_file = Some text) :
  with_suffix html_file (lit ".html.backup") = Some (html_file ++ lit ".backup")
  /\ download_step st (snd (download_phase env text st))
  /\ if 0 <? success_count (fst (download_phase env text st)) then
       if fs_rename env html_file backup_file
                    (match fs (snd (download_phase env text st)) backup_file
                     with Some _ => true | None => false end)
       then
         fs (snd (main env st)) backup_file = Some text
         /\ (forall p, p <> html_file -> p <> backup_file ->
                       fs (snd (main env st)) p
                       = fs (snd (download_phase env text st)) p)
         /\ match fs_write env html_file
                           (rewrite_text text (fst (download_phase env text st)))
            with
            | WriteOk =>
                fst (main env st) = Ok tt
                /\ trace (snd (main env st))
                   = trace (snd (download_phase env text st))
                     ++ [EvRename html_file backup_file; EvWrite html_file]
                /\ fs (snd (main env st)) html_file
                   = Some (rewrite_text text (fst (download_phase env text st)))
            | WriteOpenError =>
                fst (main env st) = Raise OSError
                /\ trace (snd (main env st))
                   = trace (snd (download_phase env text st))
                     ++ [EvRename html_file backup_file]
                /\ fs (snd (main env st)) html_file = None
            | WriteError written =>
                fst (main env st) = Raise OSError
                /\ trace (snd (main env st))
                   = trace (snd (download_phase env text st))
                     ++ [EvRename html_file backup_file; EvWrite html_file]
                /\ fs (snd (main env st)) html_file = Some written
            end
       else main env st = (Raise OSError, snd (download_phase env text st))
     else main env st = (Ok tt, snd (download_phase env text st)).
Proof.
  split; [exact backup_file_with_suffix|].
  pose proof (download_phase_step env text st) as Hstep.
  split; [exact Hstep|].
  rewrite (main_spec env st Hdoc).
  destruct (0 <? success_count (fst (download_phase env text st)));
    [|reflexivity].
  assert (Hdoc1 : fs (snd (download_phase env text st)) html_file = Some text).
  { destruct Hstep as [Hfs _]. rewrite Hfs by exact html_file_not_png.
    exact Hdoc. }
  rewrite (replace_image_urls_spec env _ _ Hdoc1).
  destruct (fs_rename env html_file backup_file _); [|reflexivity].
  assert (Hbh : backup_file <> html_file).
  { intros E. pose proof html_backup_distinct as D.
    rewrite E, str_eqb_refl in D. discriminate. }
  unfold write_file.
  destruct (fs_write env html_file _) as [| |w]; cbn [fst snd fs trace].
  - split; [|split; [|split; [reflexivity|split]]].
    + rewrite fs_set_other, fs_set_other, fs_set_same by assumption.
      reflexivity.
    + intros p Hp Hb. rewrite !fs_set_other by assumption. reflexivity.
    + rewrite <- app_assoc. reflexivity.
    + apply fs_set_same.
  - split; [|split; [|split; [reflexivity|split]]].
    + rewrite fs_set_other, fs_set_same by assumption. reflexivity.
    + intros p Hp Hb. rewrite !fs_set_other by assumption. reflexivity.
    + reflexivity.
    + apply fs_set_same.
  - split; [|split; [|split; [reflexivity|split]]].
    + rewrite fs_set_other, fs_set_other, fs_set_same by assumption.
      reflexivity.
    + intros p Hp Hb. rewrite !fs_set_other by assumption. reflexivity.
    + rewrite <- app_assoc. reflexivity.
    + apply fs_set_same.
Qed.

Lemma C7_witness :
  fs (page_state page_b) html_file = Some page_b
  /\ fs (snd (main env_online (page_state page_b))) backup_file = Some page_b
  /\ fs (snd (main env_online (page_state page_b))) html_file
     = Some (lit "<p>" ++ img_tag (lit "./downloaded_images/b.png")
               ++ lit "</p>")
  /\ trace (snd (main env_online (page_state page_b)))
     = trace (snd (download_phase env_online page_b (page_state page_b)))
       ++ [EvRename html_file backup_file; EvWrite html_file].
Proof.
  split; [reflexivity|].
  pose proof (@C7_backup_then_write env_online (page_state page_b) page_b
                eq_refl) as H.
  destruct H as (_ & _ & H).
  assert (E : (0 <? success_count
                      (fst (download_phase env_online page_b
                                           (page_state page_b)))) = true)
    by reflexivity.
  rewrite E in H. cbn [fs_rename fs_write env_online] in H.
  destruct H as (H1 & _ & _ & H2 & H3).
  split; [exact H1|]. split; [|exact H2].
  rewrite H3. reflexivity.
Defined.

(** ** C2: the extractor *)

(** The filtering loop keeps the accepted values in their order. *)
Lemma png_urls_of_filter (l : list str) : png_urls_of l = filter is_png_url l.
Proof.
  unfold png_urls_of.
  assert (H : forall acc,
             fold_left (fun png_urls url =>
                          if is_png_url url then png_urls ++ [url]
                          else png_urls) l acc
             = acc ++ filter is_png_url l).
  { induction l as [|u l IH]; intros acc; simpl.
    - rewrite app_nil_r. reflexivity.
    - rewrite IH. destruct (is_png_url u); [|reflexivity].
      rewrite <- app_assoc. reflexivity. }
  apply H.
Qed.

(** A class taken once consumes one character of the class. *)
Lemma match_once_inv cs g rest cap t r :
  match_items (Item cs Once g :: rest) cap t = Some r ->
  exists c t', t = c :: t' /\ in_charset cs c = true
               /\ match_items rest (if g then Some [c] else cap) t' = Some r.
Proof.
  cbn [match_items]. destruct t as [|c t']; [discriminate|].
  destruct (in_charset cs c) eqn:E; [|discriminate].
  intros H. exists c, t'. repeat split; assumption.
Qed.

Lemma in_only_one (x c : ascii) : in_charset (Only [x]) c = true -> c = x.
Proof.
  cbn. rewrite orb_false_r. apply Ascii.eqb_eq.
Qed.

(** Literal text at the start of a pattern matches only itself. *)
Lemma match_lits_inv (w : string) rest cap t r :
  match_items (lits w ++ rest) cap t = Some r ->
  exists t', t = lit w ++ t' /\ match_items rest cap t' = Some r.
Proof.
  unfold lits, lit. revert t.
  induction (list_ascii_of_string w) as [|x l IH]; intros t H.
  - exists t. split; [reflexivity|exact H].
  - cbn [map app] in H. apply match_once_inv in H.
    destruct H as (c & t' & -> & Hc & H). apply in_only_one in Hc. subst c.
    destruct (IH _ H) as (t'' & -> & H'). exists t''.
    split; [reflexivity|exact H'].
Qed.

Lemma match_lits (w : string) rest cap t :
  match_items (lits w ++ rest) cap (lit w ++ t) = match_items rest cap t.
Proof.
  unfold lits, lit. induction (list_ascii_of_string w) as [|x l IH].
  - reflexivity.
  - cbn [map app match_items in_charset existsb]. rewrite Ascii.eqb_refl.
    exact IH.
Qed.

(** A match of the attribute part starts with src= and a quote. *)
Lemma match_attr_inv cap t r :
  match_items attr_items cap t = Some r ->
  exists q x, t = lit "src=" ++ q :: x /\ is_quote q = true.
Proof.
  unfold attr_items. intros H. apply match_lits_inv in H.
  destruct H as (t' & -> & H). apply match_once_inv in H.
  destruct H as (q & x & -> & Hq & _). exists q, x.
  split; [reflexivity|exact Hq].
Qed.

(** A repetition that can take all of [w] and go on succeeds with that
    longest choice. *)
Lemma greedy_longest (A : Type) cs (k : str -> str -> option A) (w : str) :
  forall taken s r,
  forallb (in_charset cs) w = true ->
  match s with [] => true | c :: _ => negb (in_charset cs c) end = true ->
  k (rev w ++ taken) s = Some r ->
  greedy cs k taken (w ++ s) = Some r.
Proof.
  induction w as [|c w IH]; intros taken s r Hw Hs Hk.
  - cbn [app rev] in *. destruct s as [|c s]; [exact Hk|].
    cbn [greedy]. apply negb_true_iff in Hs. rewrite Hs. exact Hk.
  - cbn [forallb] in Hw. apply andb_true_iff in Hw. destruct Hw as [Hc Hw].
    cbn [app greedy]. rewrite Hc.
    rewrite (IH (c :: taken) s r Hw Hs); [reflexivity|].
    cbn [rev] in Hk. rewrite <- app_assoc in Hk. exact Hk.
Qed.

(** A repetition over [w] gives everything back when the rest of the
    pattern fails after every non-empty part of [w]. *)
Lemma greedy_backtrack (A : Type) cs (k : str -> str -> option A) (w : str) :
  forall taken s,
  forallb (in_charset cs) w = true ->
  match s with [] => true | c :: _ => negb (in_charset cs c) end = true ->
  (forall w1 w2, w = w1 ++ w2 -> w1 <> [] ->
                 k (rev w1 ++ taken) (w2 ++ s) = None) ->
  greedy cs k taken (w ++ s) = k taken (w ++ s).
Proof.
  induction w as [|c w IH]; intros taken s Hw Hs Hk.
  - cbn [app]. destruct s as [|c s]; [reflexivity|].
    cbn [greedy]. apply negb_true_iff in Hs. rewrite Hs. reflexivity.
  - cbn [forallb] in Hw. apply andb_true_iff in Hw. destruct Hw as [Hc Hw].
    cbn [app greedy]. rewrite Hc.
    rewrite (IH (c :: taken) s Hw Hs).
    + assert (H1 : k (rev [c] ++ taken) (w ++ s) = None)
        by (apply Hk; [reflexivity|discriminate]).
      cbn [rev app] in H1. rewrite H1. reflexivity.
    + intros w1 w2 E Hne. specialize (Hk (c :: w1) w2).
      cbn [rev] in Hk. rewrite <- app_assoc in Hk. apply Hk; [|discriminate].
      rewrite E. reflexivity.
Qed.

Lemma app_unit_split (A : Type) (a u w : list A) (x : A) :
  a ++ [x] = u ++ w ->
  (w = [] /\ u = a ++ [x]) \/ exists w', w = w' ++ [x] /\ a = u ++ w'.
Proof.
  destruct w as [|y w] using rev_ind.
  - rewrite app_nil_r. intros ->. left. split; reflexivity.
  - clear IHw. rewrite app_assoc. intros H. apply app_inj_tail in H.
    destruct H as [-> ->]. right. exists w. split; reflexivity.
Qed.

Lemma forallb_app_r (A : Type) (f : A -> bool) (a b : list A) :
  forallb f (a ++ b) = true -> forallb f b = true.
Proof. rewrite forallb_app. intros H. apply andb_true_iff in H. tauto. Qed.

Lemma greedy_split (A : Type) cs (k : str -> str -> option A) (wa wb : str) :
  forall taken s r,
  forallb (in_charset cs) (wa ++ wb) = true ->
  match s with [] => true | c :: _ => negb (in_charset cs c) end = true ->
  k (rev wa ++ taken) (wb ++ s) = Some r ->
  (forall w1 w2, wb = w1 ++ w2 -> w1 <> [] ->
                 k (rev w1 ++ rev wa ++ taken) (w2 ++ s) = None) ->
  greedy cs k taken ((wa ++ wb) ++ s) = Some r.
Proof.
  induction wa as [|c wa IH]; intros taken s r Hw Hs Hk Hfail.
  - cbn [app rev] in *. rewrite greedy_backtrack; assumption.
  - cbn [app forallb] in Hw. apply andb_true_iff in Hw. destruct Hw as [Hc Hw].
    cbn [app greedy]. rewrite Hc.
    rewrite (IH (c :: taken) s r Hw Hs); [reflexivity| |].
    + cbn [rev] in Hk. rewrite <- app_assoc in Hk. exact Hk.
    + intros w1 w2 E Hne. specialize (Hfail w1 w2 E Hne).
      cbn [rev] in Hfail. rewrite <- app_assoc in Hfail. exact Hfail.
Qed.

Lemma forallb_ext_in (A : Type) (f g : A -> bool) (l : list A) :
  (forall x, f x = g x) -> forallb f l = forallb g l.
Proof.
  intros H. induction l as [|x l IH]; [reflexivity|].
  cbn [forallb]. rewrite H, IH. reflexivity.
Qed.

(** No attribute starts in text without src= that is followed by >. *)
Lemma no_attr_in_post (post p1 p2 t : str) cap :
  contains post (lit "src=") = false ->
  post = p1 ++ p2 ->
  match_items attr_items cap (p2 ++ ">"%char :: t) = None.
Proof.
  intros Hpost ->.
  destruct (match_items attr_items cap (p2 ++ ">"%char :: t)) as [r|] eqn:M;
    [exfalso|reflexivity].
  apply match_attr_inv in M. destruct M as (q & x & M & _).
  destruct p2 as [|a [|b [|c [|d p2]]]];
    cbn [lit list_ascii_of_string app] in M; try discriminate M.
  inversion M; subst.
  change ("s"%char :: "r"%char :: "c"%char :: "="%char :: p2)
    with (lit "src=" ++ p2) in Hpost.
  rewrite contains_intro in Hpost. discriminate.
Qed.

Lemma forallb_not_gt_class (w : str) :
  forallb (in_charset (Except [">"%char])) w = forallb not_gt w.
Proof.
  apply forallb_ext_in. intros x. unfold not_gt. cbn.
  rewrite orb_false_r. reflexivity.
Qed.

Lemma value_chars (v : str) :
  src_value_ok v = true ->
  v <> [] /\ forallb (in_charset (Except quote_chars)) v = true
  /\ forallb not_gt v = true.
Proof.
  unfold src_value_ok. intros H.
  apply andb_true_iff in H. destruct H as [H _].
  apply andb_true_iff in H. destruct H as [Hne Hv].
  split; [intros ->; discriminate|].
  clear Hne. induction v as [|c v IH]; [split; reflexivity|].
  cbn [forallb] in *. apply andb_true_iff in Hv. destruct Hv as [Hc Hv].
  apply andb_true_iff in Hc. destruct Hc as [Hq Hg].
  destruct (IH Hv) as [H1 H2].
  cbn [in_charset]. fold (is_quote c). unfold not_gt at 1.
  rewrite Hq, Hg, H1, H2. split; reflexivity.
Qed.

Lemma is_quote_not_gt (q : ascii) : is_quote q = true -> not_gt q = true.
Proof.
  unfold is_quote. cbn. rewrite orb_false_r. intros H.
  apply orb_true_iff in H.
  destruct H as [H|H]; apply Ascii.eqb_eq in H; subst q; reflexivity.
Qed.

(** No attribute starts after the first character of src= and the quoted
    value, whatever follows it. *)
Lemma no_attr_inside_q (q1 q2 : ascii) (v w1 m tl : str) cap :
  is_quote q1 = true -> is_quote q2 = true ->
  src_value_ok v = true ->
  lit "src=" ++ q1 :: v ++ [q2] = w1 ++ m ->
  w1 <> [] -> m <> [] ->
  match_items attr_items cap (m ++ tl) = None.
Proof.
  intros Hq1 Hq2 Hv E Hne Hm.
  destruct (match_items attr_items cap (m ++ tl)) as [r|] eqn:M;
    [exfalso|reflexivity].
  apply match_attr_inv in M. destruct M as (q & x & M & Hq).
  destruct w1 as [|x1 [|x2 [|x3 [|x4 [|x5 w1]]]]]; [contradiction| | | | |];
    cbn [lit list_ascii_of_string app] in E; inversion E; subst;
    cbn [lit list_ascii_of_string app] in M; try discriminate M.
  - injection M as M _. subst q1. discriminate Hq1.
  - clear E Hne. rename H5 into E.
    unfold src_value_ok in Hv.
    apply andb_true_iff in Hv. destruct Hv as [Hv Hend].
    apply andb_true_iff in Hv. destruct Hv as [_ Hv].
    apply app_unit_split in E. destruct E as [[-> _]|(v2 & -> & ->)];
      [contradiction|].
    apply forallb_app_r in Hv.
    destruct v2 as [|a [|b [|c [|d [|e v2]]]]];
      cbn [lit list_ascii_of_string app] in M; inversion M; subst;
      try discriminate Hq2.
    + change [("s"%char); ("r"%char); ("c"%char); ("="%char)]
        with (lit "src=") in Hend.
      rewrite endswith_app in Hend. discriminate.
    + cbn [forallb] in Hv. rewrite Hq in Hv. cbn in Hv.
      repeat rewrite andb_false_r in Hv. discriminate.
Qed.

(** The attribute and what follows it up to the end of the tag. *)
Lemma match_attr_post_q (q1 q2 : ascii) (v post rest : str) cap :
  is_quote q1 = true -> is_quote q2 = true ->
  src_value_ok v = true -> forallb not_gt post = true ->
  match_items attr_items cap
    (lit "src=" ++ q1 :: v ++ q2 :: post ++ ">"%char :: rest)
  = Some (Some v, rest).
Proof.
  intros Hq1 Hq2 Hv Hpost. destruct (value_chars v Hv) as (Hne & Hvq & _).
  unfold attr_items. rewrite match_lits.
  cbn [app match_items in_charset]. fold (is_quote q1). rewrite Hq1.
  destruct v as [|c v]; [contradiction|].
  cbn [forallb] in Hvq. apply andb_true_iff in Hvq. destruct Hvq as [Hc Hvq].
  cbn [in_charset] in Hc. cbn [app]. rewrite Hc.
  apply greedy_longest; [exact Hvq| |].
  - cbn [in_charset]. fold (is_quote q2). rewrite Hq2. reflexivity.
  - cbn [match_items in_charset app]. fold (is_quote q2). rewrite Hq2.
    apply greedy_longest.
    + rewrite forallb_not_gt_class. exact Hpost.
    + reflexivity.
    + cbn. rewrite rev_app_distr, rev_involutive. reflexivity.
Qed.

(** The pattern at the start of a tag with several attributes matches the
    whole tag and captures the value of its last src= attribute. *)
Lemma match_img_tag_q (q1 q2 : ascii) (mid v post rest : str) :
  mid <> [] -> forallb not_gt mid = true ->
  is_quote q1 = true -> is_quote q2 = true ->
  src_value_ok v = true ->
  forallb not_gt post = true -> contains post (lit "src=") = false ->
  match_items img_pattern None
    (lit "<img" ++ mid ++ lit "src=" ++ q1 :: v ++ q2 :: post ++ lit ">"
       ++ rest)
  = Some (Some v, rest).
Proof.
  intros Hne Hmid Hq1 Hq2 Hv Hpost Hnosrc.
  change img_pattern
    with (lits "<img" ++ Item (Except [">"%char]) Plus false :: attr_items).
  rewrite match_lits.
  destruct mid as [|c mid]; [contradiction|].
  cbn [forallb] in Hmid. apply andb_true_iff in Hmid.
  destruct Hmid as [Hc Hmid].
  cbn [app match_items in_charset existsb]. rewrite orb_false_r.
  unfold not_gt in Hc. rewrite Hc.
  replace (mid ++ lit "src=" ++ q1 :: v ++ q2 :: post ++ lit ">" ++ rest)
    with ((mid ++ (lit "src=" ++ q1 :: v ++ [q2]) ++ post)
            ++ ">"%char :: rest)
    by (rewrite <- !app_assoc; cbn [app]; rewrite <- !app_assoc;
        reflexivity).
  destruct (value_chars v Hv) as (_ & _ & Hvg).
  apply greedy_split.
  - rewrite forallb_not_gt_class, !forallb_app. cbn [forallb].
    rewrite forallb_app. cbn [forallb].
    rewrite Hmid, Hvg, Hpost.
    rewrite (is_quote_not_gt q1 Hq1), (is_quote_not_gt q2 Hq2).
    reflexivity.
  - reflexivity.
  - rewrite <- !app_assoc. cbn [app]. rewrite <- !app_assoc.
    apply (match_attr_post_q q1 q2 v post rest None Hq1 Hq2 Hv Hpost).
  - intros w1 w2 E Hw1. apply app_eq_app in E.
    destruct E as (m & [[E ->]|[-> E]]).
    + destruct m as [|x m].
      * cbn [app]. apply (@no_attr_in_post post [] post rest None Hnosrc).
        reflexivity.
      * rewrite <- app_assoc.
        apply (@no_attr_inside_q q1 q2 v w1 (x :: m)
                 (post ++ ">"%char :: rest) None Hq1 Hq2 Hv E Hw1).
        discriminate.
    + apply (@no_attr_in_post post m w2 rest None Hnosrc E).
Qed.

(** The search passes over the text of a match. *)
Lemma findall_from_skip (items : list item) (a rest : str) :
  findall_from items (length a) (a ++ rest) = findall_from items 0 rest.
Proof. induction a as [|c a IH]; [reflexivity|exact IH]. Qed.

Lemma findall_from_match (items : list item) (c : ascii) (a rest v : str) :
  match_items items None (c :: a ++ rest) = Some (Some v, rest) ->
  findall_from items 0 (c :: a ++ rest) = v :: findall_from items 0 rest.
Proof.
  intros M. cbn [findall_from]. rewrite M. f_equal.
  replace (length (c :: a ++ rest) - length rest - 1) with (length a)
    by (cbn [length]; rewrite length_app; lia).
  apply findall_from_skip.
Qed.








(** ** Occurrences and [str.replace] *)

Lemma contains_length (s u : str) : contains s u = true -> length u <= length s.
Proof.
  intros H. apply contains_inv in H. destruct H as (a & b & ->).
  rewrite !length_app. lia.
Qed.

Lemma contains_false_app_l (a b x : str) :
  contains (a ++ b) x = false -> contains a x = false.
Proof.
  intros H. destruct (contains a x) eqn:E; [|reflexivity].
  apply contains_inv in E. destruct E as (l & r & ->).
  rewrite <- !app_assoc, contains_intro in H. discriminate.
Qed.

Lemma contains_false_app_r (a b x : str) :
  contains (a ++ b) x = false -> contains b x = false.
Proof.
  intros H. destruct (contains b x) eqn:E; [|reflexivity].
  rewrite (@contains_app_l a b x E) in H. discriminate.
Qed.

Lemma startswith_mono (x y u : str) :
  startswith x u = true -> startswith (x ++ y) u = true.
Proof.
  intros H. apply startswith_inv in H. destruct H as [t ->].
  rewrite <- app_assoc. apply startswith_app.
Qed.

(** An occurrence of [x] in [a ++ b] lies in [a], lies in [b], or begins
    in [a] and ends in [b]. *)
Lemma contains_app_cases (a b x : str) :
  contains (a ++ b) x = true ->
  contains a x = true \/ contains b x = true
  \/ exists x1 x2 a0 b0,
       x = x1 ++ x2 /\ x1 <> [] /\ x2 <> [] /\ a = a0 ++ x1 /\ b = x2 ++ b0.
Proof.
  intros H. apply contains_inv in H. destruct H as (l & r & H).
  apply app_eq_app in H. destruct H as (m & [[-> H]|[-> ->]]).
  - symmetry in H. apply app_eq_app in H.
    destruct H as (m' & [[-> ->]|[-> ->]]).
    + left. apply contains_intro.
    + destruct m as [|c m].
      * right. left. cbn [app]. apply (contains_intro [] m' r).
      * destruct m' as [|c' m'].
        -- left. rewrite app_nil_r.
           rewrite <- (app_nil_r (c :: m)) at 1. apply contains_intro.
        -- right. right. exists (c :: m), (c' :: m'), l, r.
           repeat split; discriminate.
  - right. left. apply contains_intro.
Qed.

(** ** [str.replace] *)

Lemma replace_from_skip (u r a b : str) :
  replace_from u r (length a) (a ++ b) = replace_from u r 0 b.
Proof.
  induction a as [|c a IH]; [destruct b; reflexivity|exact IH].
Qed.

Lemma replace_from_nil (u r : str) (n : nat) : replace_from u r n [] = [].
Proof. reflexivity. Qed.

(** Without an occurrence the text is unchanged. *)
Lemma replace_from_absent (u r s : str) :
  contains s u = false -> replace_from u r 0 s = s.
Proof.
  induction s as [|c s IH]; intros H; [reflexivity|].
  cbn [contains] in H. apply orb_false_iff in H. destruct H as [H1 H2].
  cbn [replace_from]. rewrite H1, (IH H2). reflexivity.
Qed.

Lemma startswith_short (u x y : str) :
  length u <= length x -> startswith (x ++ y) u = startswith x u.
Proof.
  revert x. induction u as [|c u IH]; intros x H; [reflexivity|].
  destruct x as [|d x]; [cbn in H; lia|].
  cbn [app startswith]. rewrite IH by (cbn in H; lia). reflexivity.
Qed.

Lemma length_removelast (u : str) : length (removelast u) = length u - 1.
Proof.
  destruct u as [|c u] using rev_ind; [reflexivity|].
  rewrite removelast_last, length_app. cbn. lia.
Qed.

(** The first occurrence is substituted and the scan goes on after it. *)
Lemma replace_from_first (u r a b : str) :
  u <> [] ->
  contains (a ++ removelast u) u = false ->
  replace_from u r 0 (a ++ u ++ b) = a ++ r ++ replace_from u r 0 b.
Proof.
  intros Hu. induction a as [|c a IH]; intros H.
  - destruct u as [|c u]; [contradiction|]. cbn [app].
    change (replace_from (c :: u) r 0 (c :: u ++ b))
      with (if startswith ((c :: u) ++ b) (c :: u)
            then r ++ replace_from (c :: u) r (length (c :: u) - 1) (u ++ b)
            else c :: replace_from (c :: u) r 0 (u ++ b)).
    rewrite startswith_app.
    replace (length (c :: u) - 1) with (length u) by (cbn [length]; lia).
    rewrite replace_from_skip. reflexivity.
  - cbn [app contains] in H. apply orb_false_iff in H. destruct H as [H1 H2].
    cbn [app replace_from].
    assert (E : startswith (c :: a ++ u ++ b) u = false).
    { rewrite (app_removelast_last "000"%char Hu) at 1.
      rewrite <- app_assoc, app_comm_cons, app_assoc.
      rewrite startswith_short; [exact H1|].
      cbn [length]. rewrite length_app, length_removelast.
      destruct u; [contradiction|cbn [length]; lia]. }
    rewrite E, (IH H2). reflexivity.
Qed.

(** The text up to the first occurrence. *)
Lemma first_occurrence (u s : str) :
  u <> [] -> contains s u = true ->
  exists a b, s = a ++ u ++ b /\ contains (a ++ removelast u) u = false.
Proof.
  intros Hu. induction s as [|c s IH]; intros H.
  - destruct u; [contradiction|discriminate].
  - cbn [contains] in H. destruct (startswith (c :: s) u) eqn:E.
    + apply startswith_inv in E. destruct E as [t E].
      exists [], t. split; [exact E|]. cbn [app].
      destruct (contains (removelast u) u) eqn:C; [|reflexivity].
      apply contains_length in C. rewrite length_removelast in C.
      destruct u; [contradiction|cbn [length] in C; lia].
    + cbn [orb] in H. destruct (IH H) as (a & b & -> & Ha).
      exists (c :: a), b. split; [reflexivity|].
      cbn [app contains]. rewrite Ha, orb_false_r.
      destruct (startswith (c :: a ++ removelast u) u) eqn:E'; [|reflexivity].
      rewrite (app_removelast_last "000"%char Hu) in E at 1.
      rewrite <- app_assoc, app_comm_cons, app_assoc in E.
      rewrite (@startswith_mono (c :: a ++ removelast u) _ u E') in E.
      discriminate.
Qed.

(** ** Overlaps *)

Lemma borders_false (a b w p q : str) :
  borders a b = false -> w <> [] -> a = p ++ w -> b = w ++ q -> False.
Proof.
  unfold borders. intros H Hw -> ->.
  assert (E : existsb (fun n => startswith (w ++ q) (skipn n (p ++ w)))
                      (seq 0 (length (p ++ w))) = true); [|congruence].
  apply existsb_exists. exists (length p). split.
  - apply in_seq. rewrite length_app. destruct w; [contradiction|].
    cbn [length]. lia.
  - rewrite skipn_app, skipn_all, Nat.sub_diag. apply startswith_app.
Qed.

Lemma no_overlap_inv (x r : str) :
  no_overlap x r = true ->
  contains x r = false /\ contains r x = false
  /\ borders r x = false /\ borders x r = false.
Proof.
  unfold no_overlap. intros H.
  repeat (apply andb_true_iff in H; destruct H as [H ?]).
  repeat split; apply negb_true_iff; assumption.
Qed.

Lemma no_overlap_nonempty (x r : str) : no_overlap x r = true -> x <> [].
Proof.
  intros H ->. apply no_overlap_inv in H. destruct H as (_ & H & _).
  destruct r; discriminate.
Qed.

(** No occurrence of [x] in [a ++ r ++ t] when there is none in [a] and
    in [t] and [x] does not overlap [r]. *)
Lemma contains_around (a r t x : str) :
  no_overlap x r = true ->
  contains a x = false -> contains t x = false ->
  contains (a ++ r ++ t) x = false.
Proof.
  intros Hov Ha Ht. apply no_overlap_inv in Hov.
  destruct Hov as (Hxr & Hrx & Hb1 & Hb2).
  destruct (contains (a ++ r ++ t) x) eqn:C; [exfalso|reflexivity].
  apply contains_app_cases in C.
  destruct C as [C|[C|(x1 & x2 & a0 & b0 & -> & H1 & H2 & -> & E)]].
  - congruence.
  - apply contains_app_cases in C.
    destruct C as [C|[C|(x1 & x2 & a0 & b0 & -> & H1 & H2 & -> & ->)]].
    + congruence.
    + congruence.
    + exact (@borders_false (a0 ++ x1) (x1 ++ x2) x1 a0 x2 Hb1 H1 eq_refl
               eq_refl).
  - apply app_eq_app in E. destruct E as (m & [[-> E]|[-> E]]).
    + (* [x2] is a beginning of [r] *)
      exact (@borders_false (x1 ++ x2) (x2 ++ m) x2 x1 m Hb2 H2 eq_refl
               eq_refl).
    + (* [r] lies in [x2] *)
      rewrite (@contains_app_l x1 (r ++ m) r (contains_intro [] r m)) in Hxr.
      discriminate.
Qed.

(** After the substitution of [u] by [r], a string [x] that does not
    overlap [r] does not occur, when it is [u] itself or did not occur
    before. *)
Lemma replace_from_clean (u r x : str) :
  u <> [] -> no_overlap x r = true ->
  forall n s, length s <= n ->
  x = u \/ contains s x = false ->
  contains (replace_from u r 0 s) x = false.
Proof.
  intros Hu Hov. induction n as [|n IH]; intros s Hn Hx.
  - destruct s; [|cbn in Hn; lia]. cbn.
    pose proof (@no_overlap_nonempty x r Hov).
    destruct x; [contradiction|reflexivity].
  - destruct (contains s u) eqn:C.
    + destruct (@first_occurrence u s Hu C) as (a & b & -> & Ha).
      rewrite replace_from_first by assumption.
      apply contains_around; [exact Hov| |].
      * destruct Hx as [->|Hx].
        -- apply (@contains_false_app_l a (removelast u) u Ha).
        -- apply (@contains_false_app_l a (u ++ b) x Hx).
      * apply IH.
        -- rewrite !length_app in Hn. destruct u; [contradiction|].
           cbn [length] in Hn. lia.
        -- destruct Hx as [->|Hx]; [left; reflexivity|right].
           apply (@contains_false_app_r u b x).
           apply (@contains_false_app_r a (u ++ b) x), Hx.
    + rewrite replace_from_absent by exact C.
      destruct Hx as [->|Hx]; assumption.
Qed.

Lemma replace_clean (u r x s : str) :
  u <> [] -> no_overlap x r = true ->
  x = u \/ contains s x = false ->
  contains (replace s u r) x = false.
Proof.
  intros Hu Hov Hx. destruct u as [|c u]; [contradiction|].
  apply replace_from_clean with (n := length s); auto.
Qed.

(** ** C5: the substitution loop *)

Lemma rewrite_text_cons (text : str) (e : str * option str) (m : dict) :
  rewrite_text text (e :: m) = rewrite_text (rewrite_entry text e) m.
Proof. reflexivity. Qed.

Lemma rewrite_entry_falsy (text : str) (e : str * option str) :
  truthy (snd e) = false -> rewrite_entry text e = text.
Proof.
  destruct e as [u [f|]]; [|reflexivity]. cbn [snd rewrite_entry].
  intros ->. reflexivity.
Qed.

Lemma rewrite_text_successes (text : str) (m : dict) :
  rewrite_text text m
  = rewrite_text text (filter (fun e => truthy (snd e)) m).
Proof.
  revert text. induction m as [|e m IH]; intros text; [reflexivity|].
  cbn [filter]. destruct (truthy (snd e)) eqn:E.
  - rewrite !rewrite_text_cons. apply IH.
  - rewrite rewrite_text_cons, rewrite_entry_falsy by exact E. apply IH.
Qed.

Lemma rewrite_text_clean (m : dict) :
  forall (done : list str) (text : str),
  no_overlaps done m = true ->
  (forall x, In x done -> contains text x = false) ->
  (forall x, In x done -> contains (rewrite_text text m) x = false)
  /\ (forall u f, In (u, Some f) m -> f <> [] ->
                  contains (rewrite_text text m) u = false).
Proof.
  induction m as [|[u [f|]] m IH]; intros done text Hov Hdone.
  - split; [exact Hdone|]. intros u f [].
  - rewrite rewrite_text_cons. cbn [no_overlaps] in Hov.
    destruct f as [|c f].
    + (* the empty file name counts as a failure *)
      cbn [truthy] in Hov. cbn [rewrite_entry truthy].
      destruct (IH done text Hov Hdone) as [H1 H2]. split; [exact H1|].
      intros u' f' [E|Hin] Hf; [inversion E; subst; contradiction|].
      exact (H2 u' f' Hin Hf).
    + cbn [truthy] in Hov. apply andb_true_iff in Hov.
      destruct Hov as [Hall Hov]. cbn [rewrite_entry truthy].
      assert (Hu : u <> []).
      { cbn [forallb] in Hall. apply andb_true_iff in Hall.
        exact (@no_overlap_nonempty u _ (proj1 Hall)). }
      assert (Hdone' : forall x, In x (u :: done) ->
                contains (replace text u (local_path (c :: f))) x = false).
      { intros x Hx. apply replace_clean; [exact Hu| |].
        - rewrite forallb_forall in Hall. exact (Hall x Hx).
        - destruct Hx as [->|Hx]; [left; reflexivity|right; auto]. }
      destruct (IH (u :: done) _ Hov Hdone') as [H1 H2]. split.
      * intros x Hx. apply H1. right. exact Hx.
      * intros u' f' [E|Hin] Hf.
        -- inversion E; subst. apply H1. left. reflexivity.
        -- exact (H2 u' f' Hin Hf).
  - rewrite rewrite_text_cons. cbn [no_overlaps rewrite_entry] in *.
    destruct (IH done text Hov Hdone) as [H1 H2]. split; [exact H1|].
    intros u' f' [E|Hin] Hf; [discriminate E|]. exact (H2 u' f' Hin Hf).
Qed.

(** C5 (amended): the rewrite skips the entries without a file name and,
    for every other entry in the order of the mapping, replaces the
    occurrences of the URL in the current text, taken from the left and
    not overlapping, by ./downloaded_images/ followed by the file name;
    the text written to the page is the result.  That text contains no
    successfully downloaded URL provided no such URL overlaps a local path
    substituted at its own or at a later entry. *)
Theorem C5_rewrite_substitutes_successes (text : str) (m : dict)
        (Hov : no_overlaps [] m = true) :
  rewrite_text text m
  = rewrite_text text (filter (fun e => truthy (snd e)) m)
  /\ (forall s u, rewrite_entry s (u, None) = s)
  /\ (forall s u f, f <> [] ->
        rewrite_entry s (u, Some f) = replace s u (local_path f))
  /\ (forall s u r, u <> [] ->
        (contains s u = false -> replace s u r = s)
        /\ (forall a b, contains (a ++ removelast u) u = false ->
              replace (a ++ u ++ b) u r = a ++ r ++ replace b u r))
  /\ (forall u f, In (u, Some f) m -> f <> [] ->
        contains (rewrite_text text m) u = false)
  /\ (forall env st1,
        fs st1 html_file = Some text ->
        fs_rename env html_file backup_file
                  (match fs st1 backup_file with
                   | Some _ => true
                   | None => false
                   end) = true ->
        fs_write env html_file (rewrite_text text m) = WriteOk ->
        fs (snd (replace_image_urls env html_file m st1)) html_file
        = Some (rewrite_text text m)).
Proof.
  split; [apply rewrite_text_successes|].
  split; [reflexivity|].
  split; [intros s u [|c f] Hf; [contradiction|reflexivity]|].
  split; [|split].
  - intros s u r Hu. destruct u as [|c u]; [contradiction|]. split.
    + apply replace_from_absent.
    + intros a b H. apply replace_from_first; [discriminate|exact H].
  - apply (@rewrite_text_clean m [] text Hov). intros x [].
  - intros env st1 Hdoc Hren Hw.
    rewrite (replace_image_urls_spec env m st1 Hdoc), Hren.
    unfold write_file. rewrite Hw. cbn [snd fs]. apply fs_set_same.
Qed.

Lemma C5_witness :
  no_overlaps [] mapping_abc = true
  /\ rewrite_text page_abc mapping_abc
     = img_tag (lit "./downloaded_images/a.png")
       ++ img_tag (lit "https://cdn.example.com/b.png")
       ++ img_tag (lit "./downloaded_images/c.PNG.png")
  /\ contains (rewrite_text page_abc mapping_abc)
              (lit "https://cdn.example.com/a.png") = false.
Proof.
  split; [reflexivity|]. split; [reflexivity|].
  destruct (@C5_rewrite_substitutes_successes page_abc mapping_abc eq_refl)
    as (_ & _ & _ & _ & H & _).
  apply (H (lit "https://cdn.example.com/a.png") (lit "a.png"));
    [left; reflexivity | discriminate].
Defined.

(** C5 as stated fails: the page refers to [url_f] and to http://h/
    followed by [url_f]; only [url_f] is downloaded, as f.png.  The
    substitution of [url_f] turns the second reference into [url_f], so
    the page written by the run contains a successfully downloaded URL. *)
Lemma C5_counterexample :
  fst (download_phase env_f page_f (page_state page_f))
  = [(url_f, Some (lit "f.png")); (lit "http://h/" ++ url_f, None)]
  /\ fst (main env_f (page_state page_f)) = Ok tt
  /\ fs (snd (main env_f (page_state page_f))) html_file
     = Some (img_tag (lit "./downloaded_images/f.png") ++ img_tag url_f)
  /\ contains (img_tag (lit "./downloaded_images/f.png") ++ img_tag url_f)
              url_f = true.
Proof. repeat split; vm_compute; reflexivity. Qed.

(** * Further properties *)

(** ** What the pattern reads *)

Lemma greedy_sound (A : Type) cs (k : str -> str -> option A) (s : str) :
  forall taken r,
  greedy cs k taken s = Some r ->
  exists w s', s = w ++ s' /\ forallb (in_charset cs) w = true
               /\ k (rev w ++ taken) s' = Some r.
Proof.
  induction s as [|c s IH]; intros taken r H.
  - exists [], []. repeat split. exact H.
  - cbn [greedy] in H. destruct (in_charset cs c) eqn:Ec.
    + destruct (greedy cs k (c :: taken) s) as [r'|] eqn:G.
      * injection H as <-. destruct (IH _ _ G) as (w & s' & -> & Hw & Hk).
        exists (c :: w), s'. cbn [forallb rev app].
        rewrite Ec, Hw, <- app_assoc.
        repeat split. exact Hk.
      * exists [], (c :: s). repeat split. exact H.
    + exists [], (c :: s). repeat split. exact H.
Qed.

Lemma match_plus_inv cs g rest cap t r :
  match_items (Item cs Plus g :: rest) cap t = Some r ->
  exists w t', t = w ++ t' /\ w <> [] /\ forallb (in_charset cs) w = true
               /\ match_items rest (if g then Some w else cap) t' = Some r.
Proof.
  cbn [match_items]. destruct t as [|c t]; [discriminate|].
  destruct (in_charset cs c) eqn:Ec; [|discriminate].
  intros H. apply greedy_sound in H. destruct H as (w & t' & -> & Hw & H).
  exists (c :: w), t'. cbn [forallb]. rewrite Ec, Hw.
  rewrite rev_app_distr, rev_involutive in H.
  repeat split; [discriminate|exact H].
Qed.

Lemma match_star_inv cs g rest cap t r :
  match_items (Item cs Star g :: rest) cap t = Some r ->
  exists w t', t = w ++ t' /\ forallb (in_charset cs) w = true
               /\ match_items rest (if g then Some w else cap) t' = Some r.
Proof.
  cbn [match_items]. intros H. apply greedy_sound in H.
  destruct H as (w & t' & -> & Hw & H). exists w, t'.
  rewrite app_nil_r, rev_involutive in H. repeat split; assumption.
Qed.

(** What a match of the pattern has read. *)
Lemma match_img_sound (s : str) (cap : option str) (rest : str) :
  match_items img_pattern None s = Some (cap, rest) ->
  exists v, cap = Some v /\ is_img_match s v rest.
Proof.
  change img_pattern
    with (lits "<img" ++ Item (Except [">"%char]) Plus false :: attr_items).
  intros H. apply match_lits_inv in H. destruct H as (t1 & -> & H).
  apply match_plus_inv in H. destruct H as (pre & t2 & -> & Hpre & Hpg & H).
  unfold attr_items in H.
  apply match_lits_inv in H. destruct H as (t3 & -> & H).
  apply match_once_inv in H. destruct H as (q1 & t4 & -> & Hq1 & H).
  apply match_plus_inv in H. destruct H as (v & t5 & -> & Hv & Hvq & H).
  apply match_once_inv in H. destruct H as (q2 & t6 & -> & Hq2 & H).
  apply match_star_inv in H. destruct H as (post & t7 & -> & Hpost & H).
  apply match_once_inv in H. destruct H as (c & t8 & -> & Hc & H).
  apply in_only_one in Hc. subst c. cbn [match_items] in H.
  injection H as <- <-.
  exists v. split; [reflexivity|].
  exists pre, q1, q2, post.
  repeat split; try assumption.
  - rewrite <- Hpg. apply forallb_ext_in. intros x. unfold not_gt. cbn.
    rewrite orb_false_r. reflexivity.
  - rewrite <- Hpost. apply forallb_ext_in. intros x. unfold not_gt. cbn.
    rewrite orb_false_r. reflexivity.
Qed.

Lemma findall_from_sound (items : list item) (v : str) (s : str) :
  forall k,
  In v (findall_from items k s) ->
  exists s1 s2 cap rest,
    s = s1 ++ s2 /\ match_items items None s2 = Some (cap, rest)
    /\ v = match cap with Some v => v | None => [] end.
Proof.
  induction s as [|c s IH]; intros k H.
  - destruct k as [|k]; [|contradiction].
    cbn [findall_from] in H.
    destruct (match_items items None []) as [[cap rest]|] eqn:M;
      [|contradiction].
    destruct H as [<-|[]]. exists [], [], cap, rest. repeat split. exact M.
  - destruct k as [|k].
    + cbn [findall_from] in H.
      destruct (match_items items None (c :: s)) as [[cap rest]|] eqn:M.
      * destruct H as [<-|H].
        -- exists [], (c :: s), cap, rest. repeat split. exact M.
        -- destruct (IH _ H) as (s1 & s2 & cap' & rest' & -> & M' & Hv).
           exists (c :: s1), s2, cap', rest'. repeat split; assumption.
      * destruct (IH _ H) as (s1 & s2 & cap' & rest' & -> & M' & Hv).
        exists (c :: s1), s2, cap', rest'. repeat split; assumption.
    + cbn [findall_from] in H.
      destruct (IH _ H) as (s1 & s2 & cap' & rest' & -> & M' & Hv).
      exists (c :: s1), s2, cap', rest'. repeat split; assumption.
Qed.

Lemma findall_img_sound (text v : str) :
  In v (findall img_pattern text) ->
  exists s1 s2 rest, text = s1 ++ s2 /\ is_img_match s2 v rest.
Proof.
  intros H. apply findall_from_sound in H.
  destruct H as (s1 & s2 & cap & rest & -> & M & ->).
  apply match_img_sound in M. destruct M as (v & -> & M).
  exists s1, s2, rest. split; [reflexivity|exact M].
Qed.

Lemma is_img_match_contains (s v rest : str) :
  is_img_match s v rest ->
  contains s (lit "<img") = true /\ contains s v = true.
Proof.
  intros (pre & q1 & q2 & post & -> & _). split.
  - apply contains_startswith, startswith_app.
  - apply contains_app_l, contains_app_l, contains_app_l.
    apply (@contains_app_l [q1]), contains_startswith, startswith_app.
Qed.

(** Every extracted value passed the test and was read off an image tag
    of the text. *)
Lemma extract_sound (text v : str) :
  In v (extract_from_text text) ->
  is_png_url v = true
  /\ exists s1 s2 rest, text = s1 ++ s2 /\ is_img_match s2 v rest.
Proof.
  intros Hin. unfold extract_from_text in Hin.
  rewrite png_urls_of_filter in Hin.
  apply filter_In in Hin. destruct Hin as [Hin Hpng].
  split; [exact Hpng|]. apply findall_img_sound, Hin.
Qed.

Lemma extract_sound_facts (text v : str) :
  In v (extract_from_text text) ->
  is_png_url v = true /\ v <> []
  /\ forallb (fun c => negb (is_quote c)) v = true
  /\ contains text v = true.
Proof.
  intros Hin. destruct (extract_sound text v Hin)
    as (Hpng & s1 & s2 & rest & -> & M).
  pose proof (is_img_match_contains M) as [_ Hc].
  destruct M as (pre & q1 & q2 & post & _ & _ & _ & _ & _ & Hne & Hq & _).
  repeat split; try assumption. apply contains_app_l, Hc.
Qed.

(** X1: every value returned by the extractor passed the test, is not
    empty, has no quote character, occurs in the text, and is the quoted
    value after src= inside a stretch of the text that starts with <img
    and ends with >. *)
Theorem X1_extract_values_come_from_tags (text v : str)
        (Hin : In v (extract_from_text text)) :
  is_png_url v = true
  /\ v <> []
  /\ forallb (fun c => negb (is_quote c)) v = true
  /\ contains text v = true
  /\ exists s1 s2 rest, text = s1 ++ s2 /\ is_img_match s2 v rest.
Proof.
  destruct (extract_sound_facts text v Hin) as (H1 & H2 & H3 & H4).
  destruct (extract_sound text v Hin) as [_ H5].
  repeat split; assumption.
Qed.

Lemma X1_witness :
  In (lit "http://h/b.png") (extract_from_text page_b)
  /\ contains page_b (lit "http://h/b.png") = true.
Proof.
  assert (H : In (lit "http://h/b.png") (extract_from_text page_b)).
  { left. reflexivity. }
  split; [exact H|].
  destruct (@X1_extract_values_come_from_tags page_b (lit "http://h/b.png") H)
    as (_ & _ & _ & Hc & _).
  exact Hc.
Defined.

(** X2: a text that does not contain <img yields no URL, whatever else it
    contains. *)
Theorem X2_extract_without_img_is_empty (text : str)
        (Hno : contains text (lit "<img") = false) :
  extract_from_text text = []
  /\ findall img_pattern text = [].
Proof.
  assert (H : findall img_pattern text = []).
  { destruct (findall img_pattern text) as [|v l] eqn:E; [reflexivity|].
    exfalso.
    assert (Hin : In v (findall img_pattern text))
      by (rewrite E; left; reflexivity).
    apply findall_img_sound in Hin. destruct Hin as (s1 & s2 & rest & -> & M).
    apply is_img_match_contains in M. destruct M as [M _].
    rewrite (@contains_app_l s1 s2 _ M) in Hno. discriminate. }
  split; [|exact H].
  unfold extract_from_text. rewrite H. reflexivity.
Qed.

Lemma X2_witness :
  contains page_link (lit "<img") = false
  /\ extract_from_text page_link = [].
Proof.
  split; [reflexivity|].
  apply (@X2_extract_without_img_is_empty page_link). reflexivity.
Defined.

(** X4: every key of the mapping built by [main] is a URL returned by the
    extractor, so it is not empty, passed the test and occurs in the text
    of the page. *)
Theorem X4_mapping_keys_are_extracted_urls (env : Env) (text : str)
        (st : State) (u : str)
        (Hkey : In u (keys (fst (download_phase env text st)))) :
  In u (extract_from_text text)
  /\ u <> []
  /\ is_png_url u = true
  /\ contains text u = true.
Proof.
  unfold download_phase in Hkey. apply download_loop_keys in Hkey.
  destruct Hkey as [[]|Hin].
  destruct (extract_sound_facts text u Hin) as (H1 & H2 & _ & H3).
  repeat split; assumption.
Qed.

Lemma X4_witness :
  In (lit "http://h/b.png")
     (keys (fst (download_phase env_offline page_b (page_state page_b))))
  /\ contains page_b (lit "http://h/b.png") = true.
Proof.
  assert (H : In (lit "http://h/b.png")
                 (keys (fst (download_phase env_offline page_b
                                            (page_state page_b))))).
  { left. reflexivity. }
  split; [exact H|].
  destruct (@X4_mapping_keys_are_extracted_urls env_offline page_b
              (page_state page_b) (lit "http://h/b.png") H) as (_ & _ & _ & Hc).
  exact Hc.
Defined.

(** ** Tags with several attributes *)

(** The pattern on a tag written with double quotes and any attribute
    text before its last src= attribute. *)
Lemma match_img_tag_with (mid v post rest : str) :
  mid <> [] -> forallb not_gt mid = true ->
  src_value_ok v = true ->
  forallb not_gt post = true -> contains post (lit "src=") = false ->
  match_items img_pattern None (img_tag_with mid v post ++ rest)
  = Some (Some v, rest).
Proof.
  intros Hne Hmid Hv Hpost Hnosrc.
  unfold img_tag_with. rewrite <- !app_assoc.
  apply (@match_img_tag_q dquote dquote mid v post rest); try assumption;
    reflexivity.
Qed.

(** X3: in a tag that starts with <img, the pattern captures the value of
    the last attribute whose name ends in src: whatever stands between
    <img and that attribute (other attributes, an earlier src attribute)
    is passed over, so an earlier src value of the same tag is not
    returned. *)
Theorem X3_last_src_attribute_is_captured (mid v post rest : str)
        (Hne : mid <> [])
        (Hmid : forallb not_gt mid = true)
        (Hv : src_value_ok v = true)
        (Hpost : forallb not_gt post = true)
        (Hnosrc : contains post (lit "src=") = false) :
  findall img_pattern (img_tag_with mid v post ++ rest)
  = v :: findall img_pattern rest.
Proof.
  pose proof (@match_img_tag_with mid v post rest Hne Hmid Hv Hpost Hnosrc)
    as M.
  unfold findall. unfold img_tag_with in *.
  change (lit "<img") with ("<"%char :: lit "img") in *.
  rewrite <- !app_comm_cons in *.
  apply findall_from_match, M.
Qed.

Lemma X3_witness :
  mid_src_a <> []
  /\ forallb not_gt mid_src_a = true
  /\ src_value_ok (lit "b.jpg") = true
  /\ forallb not_gt (lit " alt=x") = true
  /\ contains (lit " alt=x") (lit "src=") = false
  /\ findall img_pattern (img_tag_with mid_src_a (lit "b.jpg") (lit " alt=x")
                            ++ lit "")
     = [lit "b.jpg"]
  /\ extract_from_text (img_tag_with mid_src_a (lit "b.jpg") (lit " alt=x"))
     = [].
Proof.
  split; [discriminate|]. do 4 (split; [reflexivity|]).
  split; [|reflexivity].
  apply (@X3_last_src_attribute_is_captured mid_src_a (lit "b.jpg")
           (lit " alt=x") (lit "")); try reflexivity.
  discriminate.
Defined.

(** ** The fetch, request by request *)

(** The fetch is decided by the answers to at most two requests, the
    first verified, the second not, both with the timeout of 30 seconds. *)
Lemma fetch_eq (env : Env) (s : session) (url : str) (st : State) :
  fetch env s url st
  = match accepted (http_get env s (requests st) url true (Some 30%Z)) with
    | Some r => (Ok r, advance st 1 [EvGet url true (Some 30%Z)])
    | None =>
        match accepted (http_get env s (S (requests st)) url false
                                 (Some 30%Z)) with
        | Some r =>
            (Ok r, advance st 2 [EvGet url true (Some 30%Z); EvSleep 1000;
                                 EvGet url false (Some 30%Z)])
        | None =>
            (Raise TypeError,
             advance st 2 [EvGet url true (Some 30%Z); EvSleep 1000;
                           EvGet url false (Some 30%Z); EvSleep 1000])
        end
    end.
Proof.
  unfold fetch, ssl_options. cbn [fetch_loop length].
  rewrite attempt_verify. unfold accepted, advance.
  destruct (http_get env s (requests st) url true (Some 30%Z)) as [r1|e1].
  - destruct ((400 <=? status_code r1)%Z && (status_code r1 <? 600)%Z).
    + cbn [Nat.eqb Nat.sub]. unfold bind at 1. unfold sleep, emit.
      cbn [fs requests trace]. rewrite attempt_verify.
      cbn [fs requests trace].
      destruct (http_get env s (S (requests st)) url false (Some 30%Z))
        as [r2|e2].
      * destruct ((400 <=? status_code r2)%Z && (status_code r2 <? 600)%Z);
          cbn; rewrite <- !app_assoc; reflexivity.
      * cbn. rewrite <- !app_assoc. reflexivity.
    + reflexivity.
  - cbn [Nat.eqb Nat.sub]. unfold bind at 1. unfold sleep, emit.
    cbn [fs requests trace]. rewrite attempt_verify.
    cbn [fs requests trace].
    destruct (http_get env s (S (requests st)) url false (Some 30%Z))
      as [r2|e2].
    + destruct ((400 <=? status_code r2)%Z && (status_code r2 <? 600)%Z);
        cbn; rewrite <- !app_assoc; reflexivity.
    + cbn. rewrite <- !app_assoc. reflexivity.
Qed.

(** X7: the fetch returns the answer to the verified request when that
    answer is accepted; when it is not (a failure, or any status from 400
    to 599, such as 404), the request is sent again with verification
    switched off, after one second, and that answer is returned when
    accepted.  An answer with a status below 400 or from 600 on is
    accepted, not only the statuses 200 to 299. *)
Theorem X7_fetch_second_request_unverified (env : Env) (s : session)
        (url : str) (st : State) (r : response)
        (Hfirst : accepted (http_get env s (requests st) url true (Some 30%Z))
                  = None)
        (Hsecond : http_get env s (S (requests st)) url false (Some 30%Z)
                   = Ok r)
        (Hstatus : ((status_code r <? 400) || (600 <=? status_code r))%Z
                   = true) :
  fetch env s url st
  = (Ok r, advance st 2 [EvGet url true (Some 30%Z); EvSleep 1000;
                         EvGet url false (Some 30%Z)]).
Proof.
  rewrite fetch_eq, Hfirst, Hsecond. unfold accepted.
  replace ((400 <=? status_code r)%Z && (status_code r <? 600)%Z) with false;
    [reflexivity|].
  symmetry. apply andb_false_iff. apply orb_true_iff in Hstatus.
  destruct Hstatus as [H|H]; [left|right]; lia.
Qed.

Lemma X7_witness :
  accepted (http_get env_404_then_ok create_session
                     (requests (page_state [])) (lit "https://h/a.png") true
                     (Some 30%Z)) = None
  /\ fst (fetch env_404_then_ok create_session (lit "https://h/a.png")
            (page_state []))
     = Ok (Response 200 (lit "PNG"))
  /\ trace (snd (fetch env_404_then_ok create_session (lit "https://h/a.png")
                   (page_state [])))
     = [EvGet (lit "https://h/a.png") true (Some 30%Z); EvSleep 1000;
        EvGet (lit "https://h/a.png") false (Some 30%Z)].
Proof.
  split; [reflexivity|].
  rewrite (@X7_fetch_second_request_unverified env_404_then_ok create_session
             (lit "https://h/a.png") (page_state [])
             (Response 200 (lit "PNG")) eq_refl eq_refl eq_refl).
  split; reflexivity.
Defined.

(** ** One download *)

Lemma fetch_fs (env : Env) (s : session) (url : str) (st : State) :
  fs (snd (fetch env s url st)) = fs st.
Proof.
  rewrite fetch_eq.
  destruct (accepted (http_get env s (requests st) url true (Some 30%Z)));
    [reflexivity|].
  destruct (accepted (http_get env s (S (requests st)) url false
                               (Some 30%Z))); reflexivity.
Qed.

Lemma fetch_accepted_status (env : Env) (s : session) (url : str)
      (st : State) (r : response) :
  fst (fetch env s url st) = Ok r ->
  ((status_code r <? 400) || (600 <=? status_code r))%Z = true.
Proof.
  rewrite fetch_eq.
  assert (H : forall a, accepted a = Some r ->
              ((status_code r <? 400) || (600 <=? status_code r))%Z = true).
  { intros [r'|e] Ha; [|discriminate]. cbn [accepted] in Ha.
    destruct ((400 <=? status_code r')%Z && (status_code r' <? 600)%Z) eqn:E;
      [discriminate|].
    injection Ha as ->. apply andb_false_iff in E. apply orb_true_iff.
    destruct E as [E|E]; [left|right]; lia. }
  destruct (accepted (http_get env s (requests st) url true (Some 30%Z)))
    as [r1|] eqn:E1.
  - cbn [fst]. intros E. injection E as <-. eapply H, E1.
  - destruct (accepted (http_get env s (S (requests st)) url false
                                 (Some 30%Z))) as [r2|] eqn:E2.
    + cbn [fst]. intros E. injection E as <-. eapply H, E2.
    + discriminate.
Qed.

(** X6: a download succeeds exactly when the fetch returned a response,
    the file name could be derived and the file could be written; then
    the file [save_dir/filename] holds the content of the response, whose
    status is not from 400 to 599, and no other file has changed. *)
Theorem X6_download_success_writes_file (env : Env) (url save_dir : str)
        (s : session) (st : State) (f : str) :
  (fst (download_image env url save_dir s st) = Some f
   <-> exists r,
         fst (fetch env s url st) = Ok r
         /\ derive_filename env url = Ok f
         /\ fs_write env (os_path_join save_dir f) (content r) = WriteOk)
  /\ (fst (download_image env url save_dir s st) = Some f ->
      exists r,
        fst (fetch env s url st) = Ok r
        /\ ((status_code r <? 400) || (600 <=? status_code r))%Z = true
        /\ fs (snd (download_image env url save_dir s st))
              (os_path_join save_dir f) = Some (content r)
        /\ forall p, p <> os_path_join save_dir f ->
             fs (snd (download_image env url save_dir s st)) p = fs st p).
Proof.
  assert (Hiff : fst (download_image env url save_dir s st) = Some f
                 <-> exists r,
                       fst (fetch env s url st) = Ok r
                       /\ derive_filename env url = Ok f
                       /\ fs_write env (os_path_join save_dir f) (content r)
                          = WriteOk).
  { unfold download_image, bind, ret, write_file.
    destruct (fetch env s url st) as [[r|e] st1]; cbn [fst].
    - destruct (derive_filename env url) as [f'|e]; cbn [fst].
      + destruct (fs_write env (os_path_join save_dir f') (content r)) eqn:W;
          cbn [fst]; split.
        * intros E. injection E as ->. exists r. auto.
        * intros (r' & _ & E & _). congruence.
        * discriminate.
        * intros (r' & Er & E & W'). injection Er as <-. injection E as <-.
          congruence.
        * discriminate.
        * intros (r' & Er & E & W'). injection Er as <-. injection E as <-.
          congruence.
      + split; [discriminate|]. intros (r' & _ & E & _). discriminate.
    - split; [discriminate|]. intros (r' & E & _). discriminate. }
  split; [exact Hiff|].
  intros H. apply Hiff in H. destruct H as (r & Hr & Hd & Hw).
  exists r. split; [exact Hr|].
  split; [exact (fetch_accepted_status env s url st Hr)|].
  pose proof (fetch_fs env s url st) as Hfs.
  unfold download_image, bind, ret, write_file.
  destruct (fetch env s url st) as [[r'|e] st1]; cbn [fst snd] in *;
    [|discriminate].
  injection Hr as ->. rewrite Hd, Hw. cbn [snd fs]. rewrite Hfs. split.
  - apply fs_set_same.
  - intros p Hp. apply fs_set_other, Hp.
Qed.

Lemma X6_witness :
  fst (download_image env_online (lit "https://host/path/pic.png")
         download_dir create_session (page_state []))
  = Some (lit "pic.png")
  /\ fs (snd (download_image env_online (lit "https://host/path/pic.png")
                download_dir create_session (page_state [])))
        (download_dir ++ lit "/pic.png")
     = Some (lit "PNG").
Proof.
  split; [reflexivity|].
  destruct (@X6_download_success_writes_file env_online
              (lit "https://host/path/pic.png") download_dir create_session
              (page_state []) (lit "pic.png")) as [_ H].
  destruct (H eq_refl) as (r & Hr & _ & Hf & _).
  injection Hr as <-. exact Hf.
Defined.

(** ** The cost of the download phase *)

Lemma pause_total_app (a b : list event) :
  pause_total (a ++ b) = (pause_total a + pause_total b)%Z.
Proof.
  induction a as [|[] a IH]; cbn [app pause_total]; lia.
Qed.

Lemma fetch_grows (env : Env) (s : session) (url : str) (st : State) :
  exists n evs,
    grows st (snd (fetch env s url st)) n evs
    /\ 1 <= n <= 2 /\ (0 <= pause_total evs <= 2000)%Z.
Proof.
  rewrite fetch_eq.
  destruct (accepted (http_get env s (requests st) url true (Some 30%Z))).
  - eexists 1, _. split; [split; reflexivity|]. cbn. lia.
  - destruct (accepted (http_get env s (S (requests st)) url false
                                 (Some 30%Z)));
      (eexists 2, _; split; [split; reflexivity|]; cbn; lia).
Qed.

Lemma download_image_grows (env : Env) (url dir : str) (s : session)
      (st : State) :
  exists n evs,
    grows st (snd (download_image env url dir s st)) n evs
    /\ 1 <= n <= 2 /\ (0 <= pause_total evs <= 2000)%Z.
Proof.
  destruct (fetch_grows env s url st) as (n & evs & [Hr Ht] & Hn & Hp).
  unfold download_image, bind, ret, write_file.
  destruct (fetch env s url st) as [[r|e] st1]; cbn [snd] in *.
  - destruct (derive_filename env url) as [f|e]; cbn [snd].
    + destruct (fs_write env (os_path_join dir f) (content r)); cbn [snd].
      * exists n, (evs ++ [EvWrite (os_path_join dir f)]).
        split; [split; cbn [requests trace];
                [exact Hr | rewrite Ht, app_assoc; reflexivity]|].
        rewrite pause_total_app. cbn [pause_total]. lia.
      * exists n, evs. repeat split; try assumption; lia.
      * exists n, (evs ++ [EvWrite (os_path_join dir f)]).
        split; [split; cbn [requests trace];
                [exact Hr | rewrite Ht, app_assoc; reflexivity]|].
        rewrite pause_total_app. cbn [pause_total]. lia.
    + exists n, evs. repeat split; try assumption; lia.
  - exists n, evs. repeat split; try assumption; lia.
Qed.

(** X8: for every list of URLs the download loop calls [session.get] at
    least once and at most twice per URL, and the pauses of the script
    itself ([time.sleep]) add up to at least 0.5 and at most 2.5 seconds
    per URL.  What the session does inside a call, the retries of its
    transport and the pauses between them, is not counted. *)
Theorem X8_download_loop_cost (env : Env) (dir : str) (s : session)
        (urls : list str) (m : dict) (st : State) :
  exists n evs,
    requests (snd (download_loop env dir s urls m st)) = n + requests st
    /\ trace (snd (download_loop env dir s urls m st)) = trace st ++ evs
    /\ length urls <= n <= 2 * length urls
    /\ (500 * Z.of_nat (length urls) <= pause_total evs
        <= 2500 * Z.of_nat (length urls))%Z.
Proof.
  revert m st. induction urls as [|u urls IH]; intros m st.
  - exists 0, []. cbn. rewrite app_nil_r. repeat split; lia.
  - rewrite download_loop_cons.
    destruct (download_image_grows env u dir s st)
      as (n1 & e1 & [Hr1 Ht1] & Hn1 & Hp1).
    set (st1 := snd (download_image env u dir s st)) in *.
    destruct (IH (dict_set u (fst (download_image env u dir s st)) m)
                 (snd (sleep 500 st1)))
      as (n2 & e2 & Hr2 & Ht2 & Hn2 & Hp2).
    exists (n2 + n1), (e1 ++ EvSleep 500 :: e2).
    rewrite Hr2, Ht2. cbn [sleep emit snd requests trace].
    rewrite Hr1, Ht1, <- !app_assoc. cbn [app].
    split; [lia|]. split; [reflexivity|].
    rewrite pause_total_app. cbn [pause_total length].
    split; [lia|]. lia.
Qed.

(** ** A URL that comes more than once *)

(** X9: for a URL referenced several times the mapping holds the outcome
    of the download made at its last reference, in the state the earlier
    downloads left; earlier outcomes of the same URL are overwritten. *)
Theorem X9_last_download_of_a_url_is_kept (env : Env) (dir : str)
        (s : session) (pre post : list str) (u : str) (st : State)
        (Hlast : ~ In u post) :
  dict_get u (fst (download_loop env dir s (pre ++ u :: post) [] st))
  = Some (fst (download_image env u dir s
                 (snd (download_loop env dir s pre [] st)))).
Proof.
  rewrite download_loop_app, download_loop_cons.
  rewrite download_loop_get_other by exact Hlast.
  apply dict_get_set_same.
Qed.

Lemma X9_witness :
  ~ In (lit "http://h/a.png") []
  /\ fst (download_image (env_from 4) (lit "http://h/a.png") download_dir
            create_session (page_state []))
     = None
  /\ dict_get (lit "http://h/a.png")
       (fst (download_loop (env_from 4) download_dir create_session
               ([lit "http://h/a.png"; lit "http://h/b.png"]
                  ++ lit "http://h/a.png" :: []) [] (page_state [])))
     = Some (Some (lit "a.png")).
Proof.
  split; [intros []|]. split; [reflexivity|].
  rewrite (@X9_last_download_of_a_url_is_kept (env_from 4) download_dir
             create_session [lit "http://h/a.png"; lit "http://h/b.png"] []
             (lit "http://h/a.png") (page_state []) (fun H => H)).
  reflexivity.
Defined.

(** ** The file name and the path of the file *)

Lemma has_char_cons (c d : ascii) (s : str) :
  has_char c (d :: s) = Ascii.eqb c d || has_char c s.
Proof. reflexivity. Qed.


Lemma after_last_app (c : ascii) (a t : str) :
  has_char c t = false -> after_last c (a ++ c :: t) = t.
Proof.
  intros Ht. induction a as [|d a IH].
  - cbn [app after_last]. rewrite Ht, Ascii.eqb_refl. reflexivity.
  - cbn [app after_last]. rewrite has_char_app, has_char_cons, Ascii.eqb_refl.
    rewrite orb_true_r. exact IH.
Qed.

Lemma upto_last_app (c : ascii) (a t : str) :
  has_char c t = false -> upto_last c (a ++ c :: t) = a ++ [c].
Proof.
  intros Ht. induction a as [|d a IH].
  - cbn [app upto_last]. rewrite Ht, Ascii.eqb_refl. reflexivity.
  - cbn [app upto_last]. rewrite has_char_app, has_char_cons, Ascii.eqb_refl.
    rewrite orb_true_r, IH. reflexivity.
Qed.

Lemma upto_last_absent (c : ascii) (s : str) :
  has_char c s = false -> upto_last c s = [].
Proof.
  destruct s as [|d s]; [reflexivity|]. rewrite has_char_cons.
  intros H. apply orb_false_iff in H. destruct H as [Hd Hs].
  cbn [upto_last]. rewrite Hs, Ascii.eqb_sym, Hd. reflexivity.
Qed.


(** A path is its directory part followed by its base name. *)
Lemma upto_after_last (c : ascii) (s : str) :
  upto_last c s ++ after_last c s = s.
Proof.
  induction s as [|d s IH]; [reflexivity|].
  cbn [upto_last after_last]. destruct (has_char c s).
  - cbn [app]. rewrite IH. reflexivity.
  - destruct (Ascii.eqb d c); reflexivity.
Qed.



















(** ** The backup path *)

Lemma name_suffix_ext (stem ext : str) :
  stem <> [] -> ext <> [] -> has_char "."%char ext = false ->
  name_suffix (stem ++ "."%char :: ext) = "."%char :: ext.
Proof.
  intros Hs He Hd. unfold name_suffix.
  rewrite (@upto_last_app "."%char stem ext Hd).
  rewrite (@after_last_app "."%char stem ext Hd).
  destruct stem as [|a stem]; [contradiction|].
  destruct ext as [|b ext]; [contradiction|].
  destruct stem; reflexivity.
Qed.

Lemma with_suffix_ext (p stem ext : str) :
  os_path_basename p = stem ++ "."%char :: ext ->
  stem <> [] -> ext <> [] -> has_char "."%char ext = false ->
  with_suffix p (lit ".html.backup")
  = Some (upto_last "/"%char p ++ stem ++ lit ".html.backup").
Proof.
  intros Hname Hs He Hd. unfold with_suffix. rewrite Hname.
  rewrite (name_suffix_ext Hs He Hd).
  assert (Hnn : str_eqb (stem ++ "."%char :: ext) [] = false).
  { apply str_eqb_neq. destruct stem; discriminate. }
  rewrite Hnn.
  change (has_char "/"%char (lit ".html.backup")
          || negb (str_eqb (lit ".html.backup") [])
             && negb (startswith (lit ".html.backup") (lit "."))
          || str_eqb (lit ".html.backup") (lit ".") || false) with false.
  cbv iota.
  replace (length (stem ++ "."%char :: ext) - length ("."%char :: ext))
    with (length stem) by (rewrite length_app; lia).
  rewrite firstn_app, firstn_all, Nat.sub_diag, app_nil_r. reflexivity.
Qed.

(** X12: [replace_image_urls] takes the backup path from the path of the
    page by replacing the last suffix of its name by .html.backup: the
    backup of page.html is page.html.backup, the path with .backup
    appended, but the backup of page.htm is page.html.backup as well.
    When the renaming and the writing succeed, the backup holds the text
    of the page and the page the rewritten text. *)
Theorem X12_backup_path_replaces_suffix (env : Env) (p stem ext : str)
        (m : dict) (st : State) (text : str)
        (Hname : os_path_basename p = stem ++ "."%char :: ext)
        (Hstem : stem <> [])
        (Hext : ext <> [])
        (Hnodot : has_char "."%char ext = false)
        (Hdoc : fs st p = Some text)
        (Hren : forall b, fs_rename env p (upto_last "/"%char p ++ stem
                                             ++ lit ".html.backup") b = true)
        (Hwrite : fs_write env p (rewrite_text text m) = WriteOk) :
  with_suffix p (lit ".html.backup")
  = Some (upto_last "/"%char p ++ stem ++ lit ".html.backup")
  /\ (upto_last "/"%char p ++ stem ++ lit ".html.backup" = p ++ lit ".backup"
      <-> ext = lit "html")
  /\ fst (replace_image_urls env p m st) = Ok tt
  /\ fs (snd (replace_image_urls env p m st))
        (upto_last "/"%char p ++ stem ++ lit ".html.backup") = Some text
  /\ fs (snd (replace_image_urls env p m st)) p = Some (rewrite_text text m).
Proof.
  pose proof (with_suffix_ext p Hname Hstem Hext Hnodot) as Hb.
  set (b := upto_last "/"%char p ++ stem ++ lit ".html.backup") in *.
  assert (Hp : p = upto_last "/"%char p ++ stem ++ "."%char :: ext).
  { rewrite <- Hname. symmetry. apply upto_after_last. }
  assert (Hiff : b = p ++ lit ".backup" <-> ext = lit "html").
  { unfold b. rewrite Hp at 2. rewrite <- !app_assoc. split.
    - intros E. apply app_inv_head in E. apply app_inv_head in E.
      change (lit ".html.backup") with ("."%char :: lit "html" ++ lit ".backup")
        in E.
      cbn [app] in E. injection E as E.
      apply (app_inv_tail (lit ".backup") (lit "html") ext) in E.
      symmetry. exact E.
    - intros ->. reflexivity. }
  assert (Hdiff : p <> b).
  { intros E. unfold b in E. rewrite Hp in E at 1.
    apply app_inv_head in E. apply app_inv_head in E.
    injection E as E. rewrite E in Hnodot. discriminate. }
  split; [exact Hb|]. split; [exact Hiff|].
  assert (Hrun : replace_image_urls env p m st
                 = (Ok tt,
                    mkState (fs_set (fs_set (fs_set (fs st) b (Some text))
                                            p None)
                                    p (Some (rewrite_text text m)))
                            (requests st)
                            ((trace st ++ [EvRename p b]) ++ [EvWrite p]))).
  { unfold replace_image_urls, bind at 1, read_file. rewrite Hdoc, Hb.
    unfold bind, os_rename. rewrite Hdoc, Hren.
    apply str_eqb_neq in Hdiff. rewrite Hdiff.
    unfold write_file. rewrite Hwrite. reflexivity. }
  rewrite Hrun. cbn [fst snd fs].
  split; [reflexivity|]. split.
  - rewrite fs_set_other by (intros E; apply Hdiff; symmetry; exact E).
    rewrite fs_set_other by (intros E; apply Hdiff; symmetry; exact E).
    apply fs_set_same.
  - apply fs_set_same.
Qed.

Lemma X12_witness :
  os_path_basename (lit "site/page.htm") = lit "page" ++ "."%char :: lit "htm"
  /\ with_suffix (lit "site/page.htm") (lit ".html.backup")
     = Some (lit "site/page.html.backup")
  /\ fs (snd (replace_image_urls env_online (lit "site/page.htm") []
                (mkState (fs_set (fun _ => None) (lit "site/page.htm")
                                 (Some page_b)) 0 [])))
        (lit "site/page.html.backup")
     = Some page_b.
Proof.
  split; [reflexivity|].
  destruct (@X12_backup_path_replaces_suffix env_online (lit "site/page.htm")
              (lit "page") (lit "htm") []
              (mkState (fs_set (fun _ => None) (lit "site/page.htm")
                               (Some page_b)) 0 [])
              page_b eq_refl)
    as (H1 & _ & _ & H2 & _);
    try discriminate; try reflexivity.
  split; [exact H1 | exact H2].
Defined.

(** ** The files behind the mapping *)

Lemma download_image_fs (env : Env) (url dir : str) (s : session)
      (st : State) :
  (forall p, fs st p <> None ->
             fs (snd (download_image env url dir s st)) p <> None)
  /\ (forall f, fst (download_image env url dir s st) = Some f ->
                fs (snd (download_image env url dir s st))
                   (os_path_join dir f) <> None).
Proof.
  pose proof (fetch_fs env s url st) as Hfs.
  unfold download_image, bind, ret, write_file.
  destruct (fetch env s url st) as [[r|e] st1]; cbn [fst snd] in *.
  - destruct (derive_filename env url) as [f'|e]; cbn [fst snd].
    + destruct (fs_write env (os_path_join dir f') (content r));
        cbn [fst snd fs]; rewrite Hfs; split;
        try (intros p Hp; unfold fs_set;
             destruct (str_eqb p (os_path_join dir f')); congruence);
        try discriminate; try (intros p Hp; exact Hp).
      intros f E. injection E as <-. rewrite fs_set_same. discriminate.
    + rewrite Hfs. split; [intros p Hp; exact Hp|discriminate].
  - rewrite Hfs. split; [intros p Hp; exact Hp|discriminate].
Qed.

Lemma download_loop_files (env : Env) (dir : str) (s : session)
      (urls : list str) :
  forall (m : dict) (st : State),
  (forall u f, dict_get u m = Some (Some f) ->
               fs st (os_path_join dir f) <> None) ->
  forall u f,
    dict_get u (fst (download_loop env dir s urls m st)) = Some (Some f) ->
    fs (snd (download_loop env dir s urls m st)) (os_path_join dir f) <> None.
Proof.
  induction urls as [|x urls IH]; intros m st Hinv; [exact Hinv|].
  rewrite download_loop_cons. apply IH.
  destruct (download_image_fs env x dir s st) as [Hkeep Hnew].
  intros u f Hget. cbn [sleep emit snd fs].
  destruct (list_eq_dec ascii_dec u x) as [->|Hne].
  - rewrite dict_get_set_same in Hget. injection Hget as Hget.
    apply Hnew, Hget.
  - rewrite dict_get_set_other in Hget by exact Hne.
    apply Hkeep, (Hinv u f Hget).
Qed.

(** X13: after the download loop, for every URL that the mapping sends to
    a file name there is a file at the path the download wrote to,
    [os.path.join] of the directory and that name: no later download
    removes the file of an earlier one. *)
Theorem X13_mapped_files_exist (env : Env) (dir : str) (s : session)
        (urls : list str) (st : State) (u f : str)
        (Hget : dict_get u (fst (download_loop env dir s urls [] st))
                = Some (Some f)) :
  exists data,
    fs (snd (download_loop env dir s urls [] st)) (os_path_join dir f)
    = Some data.
Proof.
  assert (H : fs (snd (download_loop env dir s urls [] st))
                 (os_path_join dir f) <> None).
  { apply (@download_loop_files env dir s urls [] st) with (u := u);
      [|exact Hget]. intros u' f' E. discriminate E. }
  destruct (fs (snd (download_loop env dir s urls [] st))
               (os_path_join dir f)) as [data|]; [|contradiction].
  exists data. reflexivity.
Qed.

Lemma X13_witness :
  dict_get (lit "http://h/b.png")
    (fst (download_loop env_only_b download_dir create_session urls_aba []
                        (page_state [])))
  = Some (Some (lit "b.png"))
  /\ exists data,
       fs (snd (download_loop env_only_b download_dir create_session urls_aba
                              [] (page_state [])))
          (os_path_join download_dir (lit "b.png"))
       = Some data.
Proof.
  split; [reflexivity|].
  exact (@X13_mapped_files_exist env_only_b download_dir create_session
           urls_aba (page_state []) (lit "http://h/b.png") (lit "b.png")
           eq_refl).
Defined.
